(** * simple-todo-app: the task service over an in-memory task store

    A shallow embedding of the to-do application: the zod schemas of
    [server/src/schema.ts], the handlers [createTask], [toggleTask] and
    [updateTask], the relational store they talk to, and the state and
    event handlers of the page, [client/src/App.tsx].  Timestamps are
    milliseconds since the epoch
    ([Date.getTime()]) as [Z]; ids are integers as [Z]; strings are
    [string].  A handler is a function from the world before the call
    to the world after it and the way its promise settles. *)

From Stdlib Require Import ZArith List String Ascii Bool Lia.
From Stdlib Require Import Sorted Permutation DecimalString.
From Stdlib Require DecimalPos DecimalZ.
Import ListNotations.

Local Open Scope string_scope.
Local Open Scope list_scope.
Local Open Scope Z_scope.

(** ** JavaScript values *)

(** [T | undefined]: an optional property or an omitted field. *)
Inductive optional (A : Type) : Type :=
| undefined
| present (a : A).
Arguments undefined {A}.
Arguments present {A} a.

(** [T | null]. *)
Inductive nullable (A : Type) : Type :=
| null
| value (a : A).
Arguments null {A}.
Arguments value {A} a.

(** The values a request body is made of, before any schema has looked
    at it.  Numbers are the integers; an object is the list of its own
    properties. *)
#[warnings="-register-all"]
Inductive jsval : Type :=
| JUndefined
| JNull
| JBool (b : bool)
| JNumber (z : Z)
| JString (s : string)
| JObject (props : list (string * jsval)).

(** [obj[key]]: the value of a property, [undefined] when it is missing. *)
Fixpoint get_prop (key : string) (props : list (string * jsval)) : jsval :=
  match props with
  | [] => JUndefined
  | (k, v) :: rest => if String.eqb k key then v else get_prop key rest
  end.

(** The empty string is the only falsy string. *)
Definition truthy_string (s : string) : bool := negb (String.eqb s "").

(** [x || null] at type [string | null | undefined]. *)
Definition or_null (x : optional (nullable string)) : nullable string :=
  match x with
  | present (value s) => if truthy_string s then value s else null
  | present null => null
  | undefined => null
  end.

(** [x || d] at type [string | undefined], with a string default. *)
Definition or_string (x : optional string) (d : string) : string :=
  match x with
  | present s => if truthy_string s then s else d
  | undefined => d
  end.

(** [x || false] at type [boolean | undefined]. *)
Definition or_false (x : optional bool) : bool :=
  match x with
  | present b => if b then b else false
  | undefined => false
  end.

(** [x !== undefined ? x : null] at type [string | null | undefined]. *)
Definition defined_or_null (x : optional (nullable string)) : nullable string :=
  match x with
  | present v => v
  | undefined => null
  end.

(** A number in a template literal: the decimal digits of an integer,
    with a minus sign when it is negative. *)
Definition string_of_number (z : Z) : string :=
  NilZero.string_of_int (Z.to_int z).

(** What a promise is rejected with: an [Error] with its message, or
    a [ZodError] with its issues, each at the path of a property. *)
Inductive issue : Type :=
| invalid_type
| too_small (message : optional string).

Inductive error : Type :=
| Error (message : string)
| ZodError (issues : list (string * issue)).

(** How the promise of a handler settles.  [ResolvedUndefined] is a
    promise typed [Promise<T>] that resolves to [undefined] at run time,
    as [result[0]] on an empty array would. *)
Inductive outcome (A : Type) : Type :=
| Resolved (a : A)
| ResolvedUndefined
| Rejected (e : error).
Arguments Resolved {A} a.
Arguments ResolvedUndefined {A}.
Arguments Rejected {A} e.

(** ** schema.ts *)

Module Task.
Record t : Type := mk {
  id : Z;
  title : string;
  description : nullable string;
  completed : bool;
  created_at : Z;
  updated_at : Z
}.
End Task.
Abbreviation Task := Task.t.

Module CreateTaskInput.
Record t : Type := mk {
  title : string;
  description : optional (nullable string)
}.
End CreateTaskInput.
Abbreviation CreateTaskInput := CreateTaskInput.t.

Module UpdateTaskInput.
Record t : Type := mk {
  id : Z;
  title : optional string;
  description : optional (nullable string);
  completed : optional bool
}.
End UpdateTaskInput.
Abbreviation UpdateTaskInput := UpdateTaskInput.t.

Module DeleteTaskInput.
Record t : Type := mk { id : Z }.
End DeleteTaskInput.
Abbreviation DeleteTaskInput := DeleteTaskInput.t.

Module ToggleTaskInput.
Record t : Type := mk {
  id : Z;
  completed : bool
}.
End ToggleTaskInput.
Abbreviation ToggleTaskInput := ToggleTaskInput.t.

(** The schema of a value is its [safeParse]: the parsed data, or the
    issue with the value. *)
Definition schema (A : Type) : Type := jsval -> issue + A.

Definition z_string : schema string :=
  fun v => match v with JString s => inr s | _ => inl invalid_type end.

Definition z_number : schema Z :=
  fun v => match v with JNumber z => inr z | _ => inl invalid_type end.

Definition z_boolean : schema bool :=
  fun v => match v with JBool b => inr b | _ => inl invalid_type end.

(** [.min(n, message)] on a string schema. *)
Definition z_min (n : nat) (message : optional string) (p : schema string)
  : schema string :=
  fun v =>
    match p v with
    | inr s => if (n <=? String.length s)%nat then inr s
               else inl (too_small message)
    | inl i => inl i
    end.

Definition z_nullable {A : Type} (p : schema A) : schema (nullable A) :=
  fun v =>
    match v with
    | JNull => inr null
    | _ => match p v with inr a => inr (value a) | inl i => inl i end
    end.

Definition z_optional {A : Type} (p : schema A) : schema (optional A) :=
  fun v =>
    match v with
    | JUndefined => inr undefined
    | _ => match p v with inr a => inr (present a) | inl i => inl i end
    end.

(** The issues of one property of a [z.object]. *)
Definition issues_at {A : Type} (key : string) (r : issue + A)
  : list (string * issue) :=
  match r with
  | inl i => [(key, i)]
  | inr _ => []
  end.

(** A [z.object] parses [obj[key]] for every key of its shape, and
    fails with the issues of all of them. *)
Definition createTaskInputSchema (raw : jsval) : error + CreateTaskInput :=
  match raw with
  | JObject props =>
      let title :=
        z_min 1 (present "Title is required") z_string
              (get_prop "title" props) in
      let description :=
        z_optional (z_nullable z_string) (get_prop "description" props) in
      match title, description with
      | inr t, inr d => inr (CreateTaskInput.mk t d)
      | _, _ =>
          inl (ZodError (issues_at "title" title
                         ++ issues_at "description" description))
      end
  | _ => inl (ZodError [("", invalid_type)])
  end.

Definition updateTaskInputSchema (raw : jsval) : error + UpdateTaskInput :=
  match raw with
  | JObject props =>
      let id := z_number (get_prop "id" props) in
      let title :=
        z_optional (z_min 1 undefined z_string) (get_prop "title" props) in
      let description :=
        z_optional (z_nullable z_string) (get_prop "description" props) in
      let completed :=
        z_optional z_boolean (get_prop "completed" props) in
      match id, title, description, completed with
      | inr i, inr t, inr d, inr c => inr (UpdateTaskInput.mk i t d c)
      | _, _, _, _ =>
          inl (ZodError (issues_at "id" id
                         ++ issues_at "title" title
                         ++ issues_at "description" description
                         ++ issues_at "completed" completed))
      end
  | _ => inl (ZodError [("", invalid_type)])
  end.

Definition toggleTaskInputSchema (raw : jsval) : error + ToggleTaskInput :=
  match raw with
  | JObject props =>
      let id := z_number (get_prop "id" props) in
      let completed := z_boolean (get_prop "completed" props) in
      match id, completed with
      | inr i, inr c => inr (ToggleTaskInput.mk i c)
      | _, _ =>
          inl (ZodError (issues_at "id" id
                         ++ issues_at "completed" completed))
      end
  | _ => inl (ZodError [("", invalid_type)])
  end.

Definition deleteTaskInputSchema (raw : jsval) : error + DeleteTaskInput :=
  match raw with
  | JObject props =>
      let id := z_number (get_prop "id" props) in
      match id with
      | inr i => inr (DeleteTaskInput.mk i)
      | inl _ => inl (ZodError (issues_at "id" id))
      end
  | _ => inl (ZodError [("", invalid_type)])
  end.

(** ** The task store *)

(** The table and the console the handlers write to.  [rows] are the
    rows of [tasksTable] in insertion order, [next_id] is the next
    value of the serial [id] column. *)
Record Db : Type := mkDb {
  rows : list Task;
  next_id : Z
}.

Record World : Type := mkWorld {
  db : Db;
  console : list (string * error)
}.

Definition empty_world : World := mkWorld (mkDb [] 1) [].

(** The columns an insert gives a value for. *)
Record NewTask : Type := mkNewTask {
  new_title : string;
  new_description : nullable string;
  new_completed : bool
}.

(** Modelled from the spec: the table declaration [db/schema.ts] is not
    among the sources.  By the spec the persisted row mirrors [Task],
    [id] is generated by the store, and [created_at] and [updated_at]
    default to the current time at insertion.  [now] is that time.
    This is [db.insert(tasksTable).values(v).returning().execute()]:
    the new store and the array of inserted rows. *)
Definition insert_returning (now : Z) (v : NewTask) (d : Db)
  : Db * list Task :=
  let row := Task.mk (next_id d) (new_title v) (new_description v)
                     (new_completed v) now now in
  (mkDb (rows d ++ [row]) (next_id d + 1), [row]).

(** [db.update(tasksTable).set(s).where(w).returning().execute()]:
    every row that satisfies [w] is changed by [s]; the changed rows
    are returned. *)
Definition update_returning (s : Task -> Task) (w : Task -> bool) (d : Db)
  : Db * list Task :=
  (mkDb (map (fun r => if w r then s r else r) (rows d)) (next_id d),
   map s (filter w (rows d))).

(** [eq(tasksTable.id, id)]. *)
Definition eq_id (id : Z) (r : Task) : bool := Task.id r =? id.

(** ** Handlers *)

(** handlers/create_task.ts.  [now] is the time the store sees at the
    insertion.  The store of this model never fails, so the [catch]
    branch, which logs and rethrows a store error, is not reached. *)
Definition createTask (now : Z) (input : CreateTaskInput) (w : World)
  : World * outcome Task :=
  let '(d, result) :=
    insert_returning now
      (mkNewTask (CreateTaskInput.title input)
                 (or_null (CreateTaskInput.description input))
                 false)
      (db w) in
  match result with
  | task :: _ => (mkWorld d (console w), Resolved task)
  | [] => (mkWorld d (console w), ResolvedUndefined)
  end.

(** handlers/toggle_task.ts.  [now] is [new Date()].  The error thrown
    inside [try] is logged by [catch] and thrown again. *)
Definition toggleTask (now : Z) (input : ToggleTaskInput) (w : World)
  : World * outcome Task :=
  let '(d, result) :=
    update_returning
      (fun r => Task.mk (Task.id r) (Task.title r) (Task.description r)
                        (ToggleTaskInput.completed input)
                        (Task.created_at r) now)
      (eq_id (ToggleTaskInput.id input))
      (db w) in
  match result with
  | [] =>
      let e := Error ("Task with id "
                      ++ string_of_number (ToggleTaskInput.id input)
                      ++ " not found")%string in
      (mkWorld d (console w ++ [("Task toggle failed:", e)]), Rejected e)
  | task :: _ => (mkWorld d (console w), Resolved task)
  end.

(** handlers/update_task.ts.  [now1] and [now2] are the two [new Date()]
    of the object literal, in the order they are evaluated.  The store
    is neither read nor written. *)
Definition updateTask (now1 now2 : Z) (input : UpdateTaskInput) (w : World)
  : World * outcome Task :=
  (w, Resolved (Task.mk (UpdateTaskInput.id input)
                        (or_string (UpdateTaskInput.title input)
                                   "Placeholder title")
                        (defined_or_null (UpdateTaskInput.description input))
                        (or_false (UpdateTaskInput.completed input))
                        now1 now2)).

(** ** The operations that are specified but whose handlers are not
    among the sources *)

(** [db.delete(tasksTable).where(w)]: the rows that satisfy [w] are
    removed; the number of removed rows is returned. *)
Definition delete_where (w : Task -> bool) (d : Db) : Db * nat :=
  (mkDb (filter (fun r => negb (w r)) (rows d)) (next_id d),
   List.length (filter w (rows d))).

Record DeleteResult : Type := mkDeleteResult { success : bool }.

(** Modelled from the spec: handlers/delete_task.ts is not among the
    sources (its tests are).  By the spec, section 4.5, the operation
    removes the row matching [id] if present, and its result is
    [{ success }]: [true] if a row was removed, [false] if no row
    matched. *)
Definition deleteTask (input : DeleteTaskInput) (w : World)
  : World * outcome DeleteResult :=
  let '(d, removed) := delete_where (eq_id (DeleteTaskInput.id input)) (db w) in
  (mkWorld d (console w), Resolved (mkDeleteResult (0 <? removed)%nat)).

(** Insertion of a row in a list that is ordered newest-created first.
    Rows with the same [created_at] keep the order they had. *)
Fixpoint insert_newest_first (t : Task) (l : list Task) : list Task :=
  match l with
  | [] => [t]
  | x :: l' =>
      if Task.created_at x <=? Task.created_at t then t :: l
      else x :: insert_newest_first t l'
  end.

(** [orderBy(desc(tasksTable.created_at))]. *)
Definition order_by_created_at_desc (l : list Task) : list Task :=
  fold_right insert_newest_first [] l.

(** Modelled from the spec: handlers/get_tasks.ts is not among the
    sources (its tests are).  By the spec, section 4.2, the operation
    retrieves all tasks, ordered newest-created first, descending by
    [created_at]; the spec leaves the order of rows with the same
    [created_at] open. *)
Definition getTasks (w : World) : World * outcome (list Task) :=
  (w, Resolved (order_by_created_at_desc (rows (db w)))).

(** Modelled from the spec: the router (server/src/index.ts) is not
    among the sources.  By the spec, section 2, the RPC boundary
    validates the input against the schema of the operation before the
    operation is invoked; by section 7 a validation error is rejected
    before reaching the store. *)
Definition procedure {I O : Type} (input_schema : jsval -> error + I)
    (handler : I -> World -> World * outcome O) (raw : jsval) (w : World)
  : World * outcome O :=
  match input_schema raw with
  | inl e => (w, Rejected e)
  | inr input => handler input w
  end.

Definition rpc_createTask (now : Z) : jsval -> World -> World * outcome Task :=
  procedure createTaskInputSchema (createTask now).

(** ** Runs of the service *)

(** A request to the service, with the clock readings its handler
    takes, in the order it takes them. *)
Inductive request : Type :=
| CreateTask (now : Z) (input : CreateTaskInput)
| GetTasks
| UpdateTask (now1 now2 : Z) (input : UpdateTaskInput)
| ToggleTask (now : Z) (input : ToggleTaskInput)
| DeleteTask (input : DeleteTaskInput).

Inductive response : Type :=
| TaskResponse (o : outcome Task)
| TasksResponse (o : outcome (list Task))
| DeleteResponse (o : outcome DeleteResult).

Definition handle (r : request) (w : World) : World * response :=
  match r with
  | CreateTask now input =>
      let '(w', o) := createTask now input w in (w', TaskResponse o)
  | GetTasks =>
      let '(w', o) := getTasks w in (w', TasksResponse o)
  | UpdateTask now1 now2 input =>
      let '(w', o) := updateTask now1 now2 input w in (w', TaskResponse o)
  | ToggleTask now input =>
      let '(w', o) := toggleTask now input w in (w', TaskResponse o)
  | DeleteTask input =>
      let '(w', o) := deleteTask input w in (w', DeleteResponse o)
  end.

Fixpoint run (rs : list request) (w : World) : World * list response :=
  match rs with
  | [] => (w, [])
  | r :: rs' =>
      let '(w1, resp) := handle r w in
      let '(w2, resps) := run rs' w1 in
      (w2, resp :: resps)
  end.

Definition clock_reads (r : request) : list Z :=
  match r with
  | CreateTask now _ => [now]
  | GetTasks => []
  | UpdateTask now1 now2 _ => [now1; now2]
  | ToggleTask now _ => [now]
  | DeleteTask _ => []
  end.

(** The tasks a caller sees in a response. *)
Definition observed (resp : response) : list Task :=
  match resp with
  | TaskResponse (Resolved t) => [t]
  | TasksResponse (Resolved l) => l
  | _ => []
  end.

(** [updated_at >= created_at]. *)
Definition timestamps_ordered (t : Task) : Prop :=
  Task.created_at t <= Task.updated_at t.

(** A row as a store holds it at time [now]: its timestamps are ordered
    and none is later than [now]. *)
Definition settled_by (now : Z) (t : Task) : Prop :=
  Task.created_at t <= Task.updated_at t /\ Task.updated_at t <= now.

Definition store_settled (now : Z) (w : World) : Prop :=
  Forall (settled_by now) (rows (db w)).

(** The ids of the table are those the sequence has given out, each
    once. *)
Definition ids_assigned (w : World) : Prop :=
  Forall (fun r => Task.id r < next_id (db w)) (rows (db w)) /\
  NoDup (map Task.id (rows (db w))).

(** Ordered newest-created first. *)
Definition newest_first (a b : Task) : Prop :=
  Task.created_at b <= Task.created_at a.

(** [N] sequential creations: the world after them and the tasks they
    returned, in the order of the calls. *)
Fixpoint create_all (cs : list (Z * CreateTaskInput)) (w : World)
  : World * list (outcome Task) :=
  match cs with
  | [] => (w, [])
  | (now, input) :: cs' =>
      let '(w1, o) := createTask now input w in
      let '(w2, os) := create_all cs' w1 in
      (w2, o :: os)
  end.

(** ** The worlds and inputs of the handler tests *)

(** [createTestTask()] of the update tests, inserted at time 1000. *)
Definition original_task : Task :=
  Task.mk 1 "Original Task" (value "Original description") false 1000 1000.

Definition one_task_world : World :=
  fst (createTask 1000
         (CreateTaskInput.mk "Original Task"
            (present (value "Original description")))
         empty_world).

(** The scenario of the spec, with a second task and listings in
    between. *)
Definition scenario : list request :=
  [ CreateTask 1000 (CreateTaskInput.mk "Buy milk" undefined);
    CreateTask 1200 (CreateTaskInput.mk "Walk the dog" (present (value "")));
    UpdateTask 1500 1501
      (UpdateTaskInput.mk 1 undefined undefined (present true));
    ToggleTask 2000 (ToggleTaskInput.mk 1 true);
    GetTasks;
    DeleteTask (DeleteTaskInput.mk 2);
    ToggleTask 2500 (ToggleTaskInput.mk 2 true);
    GetTasks ].

(** The two insertions of the test 'should return tasks ordered by
    creation date (newest first)', 10 ms apart. *)
Definition oldest_then_newest : list (Z * CreateTaskInput) :=
  [ (1000, CreateTaskInput.mk "Oldest Task" (present (value "Created first")));
    (1010, CreateTaskInput.mk "Newest Task" (present (value "Created last"))) ].

(** ** The store as the handler tests read it *)

(** [db.select().from(tasksTable).where(w).execute()]. *)
Definition select_where (w : Task -> bool) (d : Db) : list Task :=
  filter w (rows d).

(** ** Inputs as the values a caller sends *)

Definition js_of_nullable (d : nullable string) : jsval :=
  match d with
  | null => JNull
  | value s => JString s
  end.

(** An optional field of an object literal: no property when it is
    omitted. *)
Definition optional_prop {A : Type} (key : string) (to_js : A -> jsval)
    (x : optional A) : list (string * jsval) :=
  match x with
  | undefined => []
  | present a => [(key, to_js a)]
  end.

Definition js_of_CreateTaskInput (input : CreateTaskInput) : jsval :=
  JObject (("title", JString (CreateTaskInput.title input))
           :: optional_prop "description" js_of_nullable
                (CreateTaskInput.description input)).

Definition js_of_UpdateTaskInput (input : UpdateTaskInput) : jsval :=
  JObject (("id", JNumber (UpdateTaskInput.id input))
           :: optional_prop "title" JString (UpdateTaskInput.title input)
           ++ optional_prop "description" js_of_nullable
                (UpdateTaskInput.description input)
           ++ optional_prop "completed" JBool
                (UpdateTaskInput.completed input)).

Definition js_of_ToggleTaskInput (input : ToggleTaskInput) : jsval :=
  JObject [("id", JNumber (ToggleTaskInput.id input));
           ("completed", JBool (ToggleTaskInput.completed input))].

(** ** client/src/App.tsx *)

(** The state of the [App] component, and the console of the page. *)
Module App.
Record State : Type := mk {
  tasks : list Task;
  isLoading : bool;
  newTaskTitle : string;
  isCreating : bool;
  console : list (string * error)
}.
End App.

Definition initial_state : App.State := App.mk [] false "" false [].

(** What [await trpc.x.mutate(input)] hands to the code after it: the
    data ([inr]), or the error it throws ([inl]). *)
Definition outcome_of {A : Type} (r : error + A) : outcome A :=
  match r with
  | inr a => Resolved a
  | inl e => Rejected e
  end.

(** [loadTasks], from the point where [trpc.getTasks.query()] has
    settled with [r]. *)
Definition loadTasks (r : error + list Task) (st : App.State) : App.State :=
  match r with
  | inr result =>
      App.mk result (App.isLoading st) (App.newTaskTitle st)
             (App.isCreating st) (App.console st)
  | inl e =>
      App.mk (App.tasks st) (App.isLoading st) (App.newTaskTitle st)
             (App.isCreating st)
             (App.console st ++ [("Failed to load tasks:", e)])
  end.

(** [handleCreateTask] up to the call: nothing is sent when the trimmed
    title is empty; otherwise the input of [trpc.createTask.mutate].
    [trim] is [String.prototype.trim]. *)
Definition handleCreateTask_input (trim : string -> string) (st : App.State)
  : option CreateTaskInput :=
  if negb (truthy_string (trim (App.newTaskTitle st))) then None
  else Some (CreateTaskInput.mk (trim (App.newTaskTitle st)) (present null)).

(** [setIsCreating(true)], before the call. *)
Definition handleCreateTask_start (st : App.State) : App.State :=
  App.mk (App.tasks st) (App.isLoading st) (App.newTaskTitle st) true
         (App.console st).

(** [handleCreateTask] from the point where the call has settled with
    [r]: the [try] body, [catch] and [finally]. *)
Definition handleCreateTask_settled (r : error + Task) (st : App.State)
  : App.State :=
  match r with
  | inr newTask =>
      App.mk (App.tasks st ++ [newTask]) (App.isLoading st) "" false
             (App.console st)
  | inl e =>
      App.mk (App.tasks st) (App.isLoading st) (App.newTaskTitle st) false
             (App.console st ++ [("Failed to create task:", e)])
  end.

(** The input of [trpc.toggleTask.mutate] in [handleToggleTask]. *)
Definition handleToggleTask_input (taskId : Z) (completed : bool)
  : ToggleTaskInput :=
  ToggleTaskInput.mk taskId completed.

(** [setIsLoading(true)], before the call of [handleToggleTask] and of
    [handleDeleteTask]. *)
Definition handle_start (st : App.State) : App.State :=
  App.mk (App.tasks st) true (App.newTaskTitle st) (App.isCreating st)
         (App.console st).

(** [handleToggleTask] from the point where the call has settled. *)
Definition handleToggleTask_settled (taskId : Z) (r : error + Task)
    (st : App.State) : App.State :=
  match r with
  | inr updatedTask =>
      App.mk (map (fun task =>
                     if Task.id task =? taskId
                     then Task.mk (Task.id task) (Task.title task)
                                  (Task.description task)
                                  (Task.completed updatedTask)
                                  (Task.created_at task)
                                  (Task.updated_at task)
                     else task)
                  (App.tasks st))
             false (App.newTaskTitle st) (App.isCreating st) (App.console st)
  | inl e =>
      App.mk (App.tasks st) false (App.newTaskTitle st) (App.isCreating st)
             (App.console st ++ [("Failed to toggle task:", e)])
  end.

(** [handleDeleteTask] from the point where the call has settled. *)
Definition handleDeleteTask_settled (taskId : Z) (r : error + DeleteResult)
    (st : App.State) : App.State :=
  match r with
  | inr result =>
      App.mk (if success result
              then filter (fun task => negb (Task.id task =? taskId))
                          (App.tasks st)
              else App.tasks st)
             false (App.newTaskTitle st) (App.isCreating st) (App.console st)
  | inl e =>
      App.mk (App.tasks st) false (App.newTaskTitle st) (App.isCreating st)
             (App.console st ++ [("Failed to delete task:", e)])
  end.

Definition completedTasks (st : App.State) : list Task :=
  filter (fun task => Task.completed task) (App.tasks st).

Definition incompleteTasks (st : App.State) : list Task :=
  filter (fun task => negb (Task.completed task)) (App.tasks st).

(** What the page shows of a task and sends about it: every field but
    [updated_at]. *)
Definition shown (t : Task) : Z * string * nullable string * bool * Z :=
  (Task.id t, Task.title t, Task.description t, Task.completed t,
   Task.created_at t).

(** The page lists the rows of the table, in some order, with the
    fields it shows as they are stored. *)
Definition mirrors (st : App.State) (w : World) : Prop :=
  Permutation (map shown (App.tasks st)) (map shown (rows (db w))).

(** A page that shows [original_task] as it was loaded. *)
Definition one_task_page : App.State :=
  loadTasks (inr [original_task]) initial_state.

(** ** Properties of the store primitives *)

Section Store.

Variable w : Task -> bool.

Lemma filter_none (l : list Task) :
  (forall r, In r l -> w r = false) -> filter w l = [].
Proof.
  induction l as [|x l IH]; intros H; simpl; [reflexivity|].
  rewrite (H x (or_introl eq_refl)). apply IH.
  intros r Hr. apply H. now right.
Qed.

Lemma filter_all (l : list Task) :
  (forall r, In r l -> w r = true) -> filter w l = l.
Proof.
  induction l as [|x l IH]; intros H; simpl; [reflexivity|].
  rewrite (H x (or_introl eq_refl)). f_equal. apply IH.
  intros r Hr. apply H. now right.
Qed.

Lemma map_where_none (s : Task -> Task) (l : list Task) :
  (forall r, In r l -> w r = false) ->
  map (fun r => if w r then s r else r) l = l.
Proof.
  induction l as [|x l IH]; intros H; simpl; [reflexivity|].
  rewrite (H x (or_introl eq_refl)). f_equal. apply IH.
  intros r Hr. apply H. now right.
Qed.

Lemma filter_nonempty (l : list Task) :
  (0 <? List.length (filter w l))%nat = true <->
  exists r, In r l /\ w r = true.
Proof.
  rewrite Nat.ltb_lt. split.
  - destruct (filter w l) as [|r m] eqn:E; simpl; [lia|]. intros _.
    exists r. apply filter_In. rewrite E. now left.
  - intros (r & Hr & Hw).
    assert (Hin : In r (filter w l)) by (apply filter_In; now split).
    destruct (filter w l); simpl in *; [contradiction | lia].
Qed.

End Store.

Lemma eq_id_true (i : Z) (r : Task) : eq_id i r = true <-> Task.id r = i.
Proof. unfold eq_id. apply Z.eqb_eq. Qed.

Lemma eq_id_false (i : Z) (r : Task) : eq_id i r = false <-> Task.id r <> i.
Proof. unfold eq_id. apply Z.eqb_neq. Qed.

(** ** toggleTask *)

(** On an id that no row has, [toggleTask] rejects with the message
    that names the id, logs the error, and leaves the table as it is. *)
Lemma toggleTask_not_found (now : Z) (input : ToggleTaskInput) (w : World) :
  (forall r, In r (rows (db w)) -> Task.id r <> ToggleTaskInput.id input) ->
  let e := Error ("Task with id "
                  ++ string_of_number (ToggleTaskInput.id input)
                  ++ " not found")%string in
  toggleTask now input w
  = (mkWorld (db w) (console w ++ [("Task toggle failed:", e)]), Rejected e).
Proof.
  intros H e. unfold toggleTask, update_returning.
  assert (Hw : forall r, In r (rows (db w)) ->
                         eq_id (ToggleTaskInput.id input) r = false).
  { intros r Hr. apply eq_id_false. now apply H. }
  rewrite (filter_none _ _ Hw), (map_where_none _ _ _ Hw). simpl.
  destruct w as [[rs n] c]. reflexivity.
Qed.

(** On an id that a row has, [toggleTask] resolves to that row with
    [completed] and [updated_at] set and the other fields as stored. *)
Lemma toggleTask_found (now : Z) (input : ToggleTaskInput) (w : World) :
  (exists r, In r (rows (db w)) /\ Task.id r = ToggleTaskInput.id input) ->
  exists r,
    In r (rows (db w)) /\ Task.id r = ToggleTaskInput.id input /\
    snd (toggleTask now input w)
    = Resolved (Task.mk (Task.id r) (Task.title r) (Task.description r)
                        (ToggleTaskInput.completed input)
                        (Task.created_at r) now).
Proof.
  intros (r0 & Hin & Hid). unfold toggleTask, update_returning.
  destruct (filter (eq_id (ToggleTaskInput.id input)) (rows (db w)))
    as [|r m] eqn:E.
  - exfalso.
    assert (H : In r0 (filter (eq_id (ToggleTaskInput.id input))
                         (rows (db w)))).
    { apply filter_In. split; [exact Hin | now apply eq_id_true]. }
    rewrite E in H. exact H.
  - assert (H : In r (filter (eq_id (ToggleTaskInput.id input))
                        (rows (db w)))) by (rewrite E; now left).
    apply filter_In in H. destruct H as [Hr Hw]. apply eq_id_true in Hw.
    exists r. simpl. repeat split; assumption.
Qed.

(** ** updateTask *)

(** [updateTask] settles the same way in every world, and changes none. *)
Lemma updateTask_ignores_store (now1 now2 : Z) (input : UpdateTaskInput)
    (w w' : World) :
  fst (updateTask now1 now2 input w) = w /\
  snd (updateTask now1 now2 input w) = snd (updateTask now1 now2 input w').
Proof. split; reflexivity. Qed.

Lemma updateTask_never_rejects (now1 now2 : Z) (input : UpdateTaskInput)
    (w : World) :
  exists t, updateTask now1 now2 input w = (w, Resolved t) /\
            Task.id t = UpdateTaskInput.id input.
Proof. eexists. split; reflexivity. Qed.

(** C1.  Not-found on an absent id: the store is empty and the input is
    that of the test 'should throw error when task does not exist'.
    [toggleTask] on id 999999 rejects with the message naming the id;
    [updateTask] on id 999999 resolves to a task that no row backs. *)
Theorem updateTask_absent_id_fabricates_task :
  rows (db empty_world) = [] /\
  snd (toggleTask 2000 (ToggleTaskInput.mk 999999 true) empty_world)
  = Rejected (Error "Task with id 999999 not found") /\
  updateTask 2000 2001
    (UpdateTaskInput.mk 999999 (present "Should fail") undefined undefined)
    empty_world
  = (empty_world,
     Resolved (Task.mk 999999 "Should fail" null false 2000 2001)).
Proof. repeat split. Qed.

(** C2.  Toggle against update restricted to [completed], on the world
    that holds [original_task] and the input [{id: 1, completed: true}].
    [toggleTask] returns the stored row with [completed] set and writes
    it back; [updateTask] returns another title, description and
    [created_at] and writes nothing.  On the absent id 7 the first
    rejects and the second resolves. *)
Theorem toggleTask_updateTask_differ :
  rows (db one_task_world) = [original_task] /\
  toggleTask 2000 (ToggleTaskInput.mk 1 true) one_task_world
  = (mkWorld
       (mkDb [Task.mk 1 "Original Task" (value "Original description")
                      true 1000 2000] 2) [],
     Resolved (Task.mk 1 "Original Task" (value "Original description")
                       true 1000 2000)) /\
  updateTask 2000 2000
    (UpdateTaskInput.mk 1 undefined undefined (present true)) one_task_world
  = (one_task_world,
     Resolved (Task.mk 1 "Placeholder title" null true 2000 2000)) /\
  snd (toggleTask 2000 (ToggleTaskInput.mk 7 true) one_task_world)
  = Rejected (Error "Task with id 7 not found") /\
  snd (updateTask 2000 2000
         (UpdateTaskInput.mk 7 undefined undefined (present true))
         one_task_world)
  = Resolved (Task.mk 7 "Placeholder title" null true 2000 2000).
Proof. repeat split. Qed.

(** C3.  Omitted fields of an update, on the world that holds
    [original_task] and the input of the test 'should update task
    description only'.  The title, which the input omits, comes back as
    the placeholder and [created_at] as the time of the call; the stored
    row is not touched. *)
Theorem updateTask_omitted_fields_replaced :
  rows (db one_task_world) = [original_task] /\
  updateTask 2000 2001
    (UpdateTaskInput.mk 1 undefined (present (value "Updated description"))
                        undefined)
    one_task_world
  = (one_task_world,
     Resolved (Task.mk 1 "Placeholder title" (value "Updated description")
                       false 2000 2001)) /\
  "Placeholder title" <> Task.title original_task /\
  2000 <> Task.created_at original_task.
Proof. repeat split; discriminate. Qed.

(** C4.  An update with only [id], on the world that holds
    [original_task]: the input of the test 'should handle empty update
    input gracefully'.  The schema accepts it; the task returned has
    the placeholder title, a null description and a new [created_at]. *)
Theorem updateTask_only_id_replaces_fields :
  rows (db one_task_world) = [original_task] /\
  updateTaskInputSchema (JObject [("id", JNumber 1)])
  = inr (UpdateTaskInput.mk 1 undefined undefined undefined) /\
  updateTask 2000 2001 (UpdateTaskInput.mk 1 undefined undefined undefined)
    one_task_world
  = (one_task_world,
     Resolved (Task.mk 1 "Placeholder title" null false 2000 2001)) /\
  "Placeholder title" <> Task.title original_task /\
  null <> Task.description original_task /\
  2000 <> Task.created_at original_task.
Proof. repeat split; discriminate. Qed.

(** ** Listing *)

Lemma insert_newest_first_perm (t : Task) (l : list Task) :
  Permutation (t :: l) (insert_newest_first t l).
Proof.
  induction l as [|x l IH]; simpl; [reflexivity|].
  destruct (Task.created_at x <=? Task.created_at t); [reflexivity|].
  rewrite perm_swap. now apply perm_skip.
Qed.

Lemma order_by_created_at_desc_perm (l : list Task) :
  Permutation l (order_by_created_at_desc l).
Proof.
  induction l as [|x l IH]; simpl; [constructor|].
  rewrite <- insert_newest_first_perm. now apply perm_skip.
Qed.



(** ** The timestamps along a run *)

Lemma settled_by_later (t0 t1 : Z) (t : Task) :
  t0 <= t1 -> settled_by t0 t -> settled_by t1 t.
Proof. unfold settled_by. lia. Qed.

Lemma store_settled_later (t0 t1 : Z) (w : World) :
  t0 <= t1 -> store_settled t0 w -> store_settled t1 w.
Proof.
  intros Hle. apply Forall_impl. intros t. now apply settled_by_later.
Qed.

Lemma settled_ordered (now : Z) (l : list Task) :
  Forall (settled_by now) l -> Forall timestamps_ordered l.
Proof. apply Forall_impl. intros t [H _]. exact H. Qed.

Lemma createTask_settled (t0 now : Z) (input : CreateTaskInput) (w : World) :
  store_settled t0 w -> t0 <= now ->
  store_settled now (fst (createTask now input w)) /\
  Forall timestamps_ordered (observed (TaskResponse (snd (createTask now input w)))).
Proof.
  intros Hw Hle. unfold createTask, insert_returning, store_settled. simpl.
  split.
  - apply Forall_app. split.
    + now apply (store_settled_later t0).
    + repeat constructor; simpl; lia.
  - repeat constructor. unfold timestamps_ordered. simpl. lia.
Qed.

Lemma toggleTask_rows (now : Z) (input : ToggleTaskInput) (w : World) :
  rows (db (fst (toggleTask now input w)))
  = map (fun r => if eq_id (ToggleTaskInput.id input) r
                  then Task.mk (Task.id r) (Task.title r) (Task.description r)
                               (ToggleTaskInput.completed input)
                               (Task.created_at r) now
                  else r) (rows (db w)).
Proof.
  unfold toggleTask, update_returning.
  destruct (map _ (filter _ _)); reflexivity.
Qed.

Lemma toggleTask_settled (t0 now : Z) (input : ToggleTaskInput) (w : World) :
  store_settled t0 w -> t0 <= now ->
  store_settled now (fst (toggleTask now input w)) /\
  Forall timestamps_ordered (observed (TaskResponse (snd (toggleTask now input w)))).
Proof.
  intros Hw Hle. split.
  - unfold store_settled. rewrite toggleTask_rows. apply Forall_map.
    eapply Forall_impl; [|exact Hw]. intros r [H1 H2].
    destruct (eq_id _ r); unfold settled_by in *; simpl; lia.
  - unfold toggleTask, update_returning.
    destruct (filter (eq_id (ToggleTaskInput.id input)) (rows (db w)))
      as [|r m] eqn:E; simpl; [constructor|].
    assert (Hr : In r (rows (db w))).
    { eapply proj1. apply filter_In. rewrite E. now left. }
    unfold store_settled in Hw. rewrite Forall_forall in Hw.
    destruct (Hw r Hr) as [H1 H2].
    repeat constructor. unfold timestamps_ordered. simpl. lia.
Qed.

Lemma updateTask_settled (t0 now1 now2 : Z) (input : UpdateTaskInput)
    (w : World) :
  store_settled t0 w -> t0 <= now2 -> now1 <= now2 ->
  store_settled now2 (fst (updateTask now1 now2 input w)) /\
  Forall timestamps_ordered
    (observed (TaskResponse (snd (updateTask now1 now2 input w)))).
Proof.
  intros Hw H0 H12. split.
  - now apply (store_settled_later t0).
  - repeat constructor. exact H12.
Qed.

Lemma getTasks_settled (t0 : Z) (w : World) :
  store_settled t0 w ->
  store_settled t0 (fst (getTasks w)) /\
  Forall timestamps_ordered (observed (TasksResponse (snd (getTasks w)))).
Proof.
  intros Hw. split; [exact Hw|]. simpl.
  eapply Permutation_Forall; [apply order_by_created_at_desc_perm|].
  exact (settled_ordered _ _ Hw).
Qed.

Lemma deleteTask_settled (t0 : Z) (input : DeleteTaskInput) (w : World) :
  store_settled t0 w ->
  store_settled t0 (fst (deleteTask input w)) /\
  Forall timestamps_ordered (observed (DeleteResponse (snd (deleteTask input w)))).
Proof.
  intros Hw. split; [|constructor].
  unfold store_settled, deleteTask, delete_where. simpl.
  unfold store_settled in Hw. rewrite Forall_forall in *.
  intros r Hr. apply filter_In in Hr. now apply Hw.
Qed.

Lemma run_cons (r : request) (rs : list request) (w : World) :
  run (r :: rs) w
  = (fst (run rs (fst (handle r w))),
     snd (handle r w) :: snd (run rs (fst (handle r w)))).
Proof.
  simpl. destruct (handle r w) as [w1 resp]. simpl.
  destruct (run rs w1). reflexivity.
Qed.

Lemma handle_fst_snd (r : request) (w : World) :
  handle r w
  = match r with
    | CreateTask now input =>
        (fst (createTask now input w), TaskResponse (snd (createTask now input w)))
    | GetTasks => (fst (getTasks w), TasksResponse (snd (getTasks w)))
    | UpdateTask now1 now2 input =>
        (fst (updateTask now1 now2 input w),
         TaskResponse (snd (updateTask now1 now2 input w)))
    | ToggleTask now input =>
        (fst (toggleTask now input w), TaskResponse (snd (toggleTask now input w)))
    | DeleteTask input =>
        (fst (deleteTask input w), DeleteResponse (snd (deleteTask input w)))
    end.
Proof.
  destruct r; simpl.
  - now destruct (createTask now input w).
  - reflexivity.
  - reflexivity.
  - now destruct (toggleTask now input w).
  - reflexivity.
Qed.

Lemma run_settled (rs : list request) :
  forall (t0 : Z) (w : World),
    store_settled t0 w ->
    StronglySorted Z.le (t0 :: flat_map clock_reads rs) ->
    (exists t1, store_settled t1 (fst (run rs w))) /\
    Forall (fun resp => Forall timestamps_ordered (observed resp))
           (snd (run rs w)).
Proof.
  induction rs as [|r rs IH]; intros t0 w Hw Hs.
  - simpl. split; [now exists t0 | constructor].
  - rewrite run_cons, handle_fst_snd. simpl fst. simpl snd.
    apply StronglySorted_inv in Hs. destruct Hs as [Hs H0].
    destruct r as [now input| |now1 now2 input|now input|input];
      simpl in Hs, H0.
    + inversion H0 as [|? ? Hle _]; subst.
      destruct (createTask_settled t0 now input w Hw Hle) as [H1 H2].
      destruct (IH now _ H1 Hs) as [H3 H4].
      split; [exact H3 | now constructor].
    + destruct (getTasks_settled t0 w Hw) as [H1 H2].
      destruct (IH t0 _ H1) as [H3 H4]; [now constructor|].
      split; [exact H3 | now constructor].
    + inversion H0 as [|? ? Hle1 H0']; subst.
      inversion H0' as [|? ? Hle2 _]; subst.
      apply StronglySorted_inv in Hs. destruct Hs as [Hs H12].
      inversion H12 as [|? ? Hle12 _]; subst.
      destruct (updateTask_settled t0 now1 now2 input w Hw Hle2 Hle12)
        as [H1 H2].
      destruct (IH now2 _ H1 Hs) as [H3 H4].
      split; [exact H3 | now constructor].
    + inversion H0 as [|? ? Hle _]; subst.
      destruct (toggleTask_settled t0 now input w Hw Hle) as [H1 H2].
      destruct (IH now _ H1 Hs) as [H3 H4].
      split; [exact H3 | now constructor].
    + destruct (deleteTask_settled t0 input w Hw) as [H1 H2].
      destruct (IH t0 _ H1) as [H3 H4]; [now constructor|].
      split; [exact H3 | now constructor].
Qed.

(** C5.  [updated_at >= created_at] along every run.  The service
    starts in a world whose rows have ordered timestamps, none later
    than [t0], and serves the requests [rs]; the clock never runs
    backwards: the readings the handlers take, from [t0] on, do not
    decrease.  Then every task in every response (of create, list,
    update and toggle) and every row of the final store has
    [updated_at >= created_at]. *)
Theorem timestamps_ordered_along_run (rs : list request) (t0 : Z)
    (w0 w : World) (resps : list response) :
  store_settled t0 w0 ->
  Sorted Z.le (t0 :: flat_map clock_reads rs) ->
  run rs w0 = (w, resps) ->
  Forall timestamps_ordered (rows (db w)) /\
  Forall (fun resp => Forall timestamps_ordered (observed resp)) resps.
Proof.
  intros Hw Hs Hrun.
  apply Sorted_StronglySorted in Hs; [|exact Z.le_trans].
  destruct (run_settled rs t0 w0 Hw Hs) as [[t1 H1] H2].
  rewrite Hrun in H1, H2. simpl in H1, H2. split; [|exact H2].
  exact (settled_ordered _ _ H1).
Qed.

Lemma timestamps_ordered_along_run_witness :
  Forall timestamps_ordered (rows (db (fst (run scenario empty_world)))) /\
  Forall (fun resp => Forall timestamps_ordered (observed resp))
         (snd (run scenario empty_world)).
Proof.
  apply (timestamps_ordered_along_run scenario 0 empty_world).
  - constructor.
  - unfold scenario. simpl. repeat constructor; lia.
  - reflexivity.
Defined.

(** From the empty store, non-decreasing readings are all it takes. *)
Corollary timestamps_ordered_from_empty (rs : list request) :
  Sorted Z.le (flat_map clock_reads rs) ->
  Forall timestamps_ordered (rows (db (fst (run rs empty_world)))) /\
  Forall (fun resp => Forall timestamps_ordered (observed resp))
         (snd (run rs empty_world)).
Proof.
  intros Hs.
  assert (H : exists t0, Sorted Z.le (t0 :: flat_map clock_reads rs)).
  { destruct (flat_map clock_reads rs) as [|t l].
    - exists 0. repeat constructor.
    - exists t. constructor; [exact Hs|]. constructor. lia. }
  destruct H as [t0 H].
  apply Sorted_StronglySorted in H; [|exact Z.le_trans].
  destruct (run_settled rs t0 empty_world (Forall_nil _) H) as [[t1 H1] H2].
  split; [exact (settled_ordered _ _ H1) | exact H2].
Qed.

(** ** The ids along a run *)

Lemma NoDup_map_filter (w : Task -> bool) (l : list Task) :
  NoDup (map Task.id l) -> NoDup (map Task.id (filter w l)).
Proof.
  induction l as [|x l IH]; simpl; intros H; [constructor|].
  inversion H as [|? ? Hx Hl]; subst.
  destruct (w x); simpl; [|now apply IH].
  constructor; [|now apply IH].
  intros Hin. apply Hx. apply in_map_iff in Hin.
  destruct Hin as (y & Hy & Hin). apply filter_In in Hin.
  apply in_map_iff. exists y. tauto.
Qed.

Lemma handle_ids_assigned (r : request) (w : World) :
  ids_assigned w -> ids_assigned (fst (handle r w)).
Proof.
  intros [Hlt Hnd]. rewrite handle_fst_snd.
  destruct r as [now input| |now1 now2 input|now input|input]; cbn [fst].
  - unfold ids_assigned, createTask, insert_returning. simpl. split.
    + apply Forall_app. split.
      * eapply Forall_impl; [|exact Hlt]. simpl. intros; lia.
      * repeat constructor. simpl. lia.
    + rewrite map_app. simpl.
      eapply Permutation_NoDup; [apply Permutation_cons_append|].
      constructor; [|exact Hnd].
      intros Hin. apply in_map_iff in Hin. destruct Hin as (y & Hy & Hin).
      rewrite Forall_forall in Hlt. specialize (Hlt y Hin). lia.
  - now split.
  - now split.
  - unfold ids_assigned. rewrite toggleTask_rows.
    assert (Hn : next_id (db (fst (toggleTask now input w))) = next_id (db w)).
    { unfold toggleTask, update_returning.
      destruct (map _ (filter _ _)); reflexivity. }
    rewrite Hn. split.
    + apply Forall_map. eapply Forall_impl; [|exact Hlt].
      intros x Hx. now destruct (eq_id _ x).
    + rewrite map_map.
      erewrite map_ext; [exact Hnd|].
      intros x. now destruct (eq_id _ x).
  - unfold ids_assigned, deleteTask, delete_where. simpl. split.
    + rewrite Forall_forall in *. intros x Hx. apply filter_In in Hx.
      now apply Hlt.
    + now apply NoDup_map_filter.
Qed.

(** Every id of the table is unique, whatever the service was asked. *)
Lemma run_ids_assigned (rs : list request) :
  forall w : World, ids_assigned w -> ids_assigned (fst (run rs w)).
Proof.
  induction rs as [|r rs IH]; intros w Hw; [exact Hw|].
  rewrite run_cons. cbn [fst]. apply IH. now apply handle_ids_assigned.
Qed.

Lemma empty_world_ids_assigned : ids_assigned empty_world.
Proof. split; constructor. Qed.

(** ** createTask *)

(** The insertion returns exactly one row, so [result[0]] is a task. *)
Lemma createTask_eq (now : Z) (input : CreateTaskInput) (w : World) :
  createTask now input w
  = let row := Task.mk (next_id (db w)) (CreateTaskInput.title input)
                       (or_null (CreateTaskInput.description input))
                       false now now in
    (mkWorld (mkDb (rows (db w) ++ [row]) (next_id (db w) + 1)) (console w),
     Resolved row).
Proof. reflexivity. Qed.

(** C6.  For every create input, the promise resolves to a task that
    is not completed, carries the id the store assigned (the next value
    of its sequence), and has [created_at] equal to [updated_at], so
    within any tolerance; the task is the row appended to the table. *)
Theorem createTask_returns_new_task (now : Z) (input : CreateTaskInput)
    (w : World) :
  exists t : Task,
    snd (createTask now input w) = Resolved t /\
    Task.completed t = false /\
    Task.id t = next_id (db w) /\
    Task.created_at t = Task.updated_at t /\
    Z.abs (Task.updated_at t - Task.created_at t) < 1000 /\
    Task.title t = CreateTaskInput.title input /\
    rows (db (fst (createTask now input w))) = rows (db w) ++ [t].
Proof.
  eexists. unfold createTask, insert_returning. simpl.
  repeat split. rewrite Z.sub_diag. reflexivity.
Qed.

(** C10.  An empty-string description, which the create schema
    accepts, is stored and returned as null: [createTask] does on it
    exactly what it does on an omitted description and on a null one. *)
Theorem createTask_empty_description_is_null (now : Z) (title : string)
    (w : World) :
  let input d := CreateTaskInput.mk title d in
  (forall (c : ascii) (s : string),
      createTaskInputSchema
        (JObject [("title", JString (String c s));
                  ("description", JString "")])
      = inr (CreateTaskInput.mk (String c s) (present (value "")))) /\
  createTask now (input (present (value ""))) w
  = createTask now (input undefined) w /\
  createTask now (input (present (value ""))) w
  = createTask now (input (present null)) w /\
  exists t : Task,
    snd (createTask now (input (present (value ""))) w) = Resolved t /\
    Task.description t = null /\
    rows (db (fst (createTask now (input (present (value ""))) w)))
    = rows (db w) ++ [t].
Proof.
  intros input. repeat split.
  eexists. unfold createTask, insert_returning. simpl. repeat split.
Qed.

(** ** The create procedure *)

(** C9.  A create request whose title is the empty string is rejected
    with a validation error whose first issue is the one of the title,
    and the world (the table, the id sequence and the console) is the
    one before the request. *)
Theorem rpc_createTask_empty_title_rejected (now : Z)
    (props : list (string * jsval)) (w : World) :
  get_prop "title" props = JString "" ->
  exists rest : list (string * issue),
    rpc_createTask now (JObject props) w
    = (w, Rejected
            (ZodError (("title", too_small (present "Title is required"))
                       :: rest))).
Proof.
  intros H. unfold rpc_createTask, procedure, createTaskInputSchema.
  rewrite H. cbv zeta. simpl.
  destruct (z_optional (z_nullable z_string) (get_prop "description" props));
    eexists; reflexivity.
Qed.

Lemma rpc_createTask_empty_title_rejected_witness :
  exists rest : list (string * issue),
    rpc_createTask 1000
      (JObject [("description", JString "no title"); ("title", JString "")])
      one_task_world
    = (one_task_world,
       Rejected
         (ZodError (("title", too_small (present "Title is required"))
                    :: rest))).
Proof.
  apply (rpc_createTask_empty_title_rejected 1000
           [("description", JString "no title"); ("title", JString "")]
           one_task_world).
  reflexivity.
Defined.

(** A title of at least one character and an optional, nullable
    description pass the create schema. *)
Lemma createTaskInputSchema_accepts (c : ascii) (s : string)
    (d : optional (nullable string)) :
  createTaskInputSchema
    (JObject [("title", JString (String c s));
              ("description",
               match d with
               | undefined => JUndefined
               | present null => JNull
               | present (value x) => JString x
               end)])
  = inr (CreateTaskInput.mk (String c s) d).
Proof. destruct d as [|[|x]]; reflexivity. Qed.

(** ** deleteTask *)

Lemma filter_negb_none (w : Task -> bool) (l : list Task) :
  filter w (filter (fun r => negb (w r)) l) = [].
Proof.
  apply filter_none. intros r Hr. apply filter_In in Hr.
  destruct Hr as [_ Hr]. now destruct (w r).
Qed.

Lemma filter_negb_idem (w : Task -> bool) (l : list Task) :
  filter (fun r => negb (w r)) (filter (fun r => negb (w r)) l)
  = filter (fun r => negb (w r)) l.
Proof.
  apply filter_all. intros r Hr. apply filter_In in Hr. tauto.
Qed.

(** C7.  [deleteTask] always resolves, to [{ success }].  [success] is
    true exactly when a row with the id was in the table; afterwards
    the table holds the rows of the other ids and no row of this one.
    When [success] is false the world is the one before the call, and
    the same delete once more resolves to [{ success: false }] and
    changes nothing. *)
Theorem deleteTask_success_iff_row_removed (input : DeleteTaskInput)
    (w : World) :
  let i := DeleteTaskInput.id input in
  let w' := fst (deleteTask input w) in
  exists b : bool,
    snd (deleteTask input w) = Resolved (mkDeleteResult b) /\
    (b = true <-> exists r, In r (rows (db w)) /\ Task.id r = i) /\
    (forall r, In r (rows (db w')) <-> In r (rows (db w)) /\ Task.id r <> i) /\
    (b = false -> w' = w) /\
    deleteTask input w' = (w', Resolved (mkDeleteResult false)).
Proof.
  intros i w'. subst w'. unfold deleteTask, delete_where. simpl.
  fold i. eexists. split; [reflexivity|]. split; [|split; [|split]].
  - rewrite filter_nonempty. split; intros (r & Hr & H); exists r;
      (split; [exact Hr | now apply eq_id_true]).
  - intros r. rewrite filter_In, negb_true_iff, eq_id_false. reflexivity.
  - intros Hb. destruct w as [[rs n] c]. simpl in *. do 2 f_equal.
    apply filter_all. intros r Hr. apply negb_true_iff.
    destruct (eq_id i r) eqn:E; [|reflexivity]. exfalso.
    assert (H : (0 <? List.length (filter (eq_id i) rs))%nat = true).
    { apply filter_nonempty. now exists r. }
    congruence.
  - rewrite filter_negb_none, filter_negb_idem. reflexivity.
Qed.

(** ** getTasks *)





(** When no two rows share a [created_at], newest-first leaves no
    choice: any two such listings of the same rows are equal. *)
Lemma newest_first_listing_unique (l1 : list Task) :
  forall l2 : list Task,
    NoDup (map Task.created_at l1) ->
    Permutation l1 l2 ->
    StronglySorted newest_first l1 ->
    StronglySorted newest_first l2 ->
    l1 = l2.
Proof.
  induction l1 as [|a l1 IH]; intros l2 Hnd Hp Hs1 Hs2.
  - apply Permutation_nil in Hp. now subst.
  - destruct l2 as [|b l2].
    { apply Permutation_sym, Permutation_nil in Hp. discriminate. }
    apply StronglySorted_inv in Hs1. destruct Hs1 as [Hs1 Ha].
    apply StronglySorted_inv in Hs2. destruct Hs2 as [Hs2 Hb].
    rewrite Forall_forall in Ha, Hb.
    assert (Hab : a = b).
    { assert (Hin : In a (b :: l2)).
      { eapply Permutation_in; [exact Hp | now left]. }
      destruct Hin as [E|Hin]; [now symmetry|].
      assert (Hin' : In b (a :: l1)).
      { eapply Permutation_in; [apply Permutation_sym, Hp | now left]. }
      destruct Hin' as [E|Hin']; [exact E|].
      exfalso. inversion Hnd as [|? ? Hna _]; subst. apply Hna.
      specialize (Ha b Hin'). specialize (Hb a Hin).
      unfold newest_first in Ha, Hb.
      replace (Task.created_at a) with (Task.created_at b) by lia.
      now apply in_map. }
    subst b. f_equal. apply IH; try assumption.
    + now inversion Hnd.
    + now apply Permutation_cons_inv in Hp.
Qed.



(** The listing of the test: the newest task first. *)
Example getTasks_oldest_then_newest :
  snd (getTasks (fst (create_all oldest_then_newest empty_world)))
  = Resolved
      [ Task.mk 2 "Newest Task" (value "Created last") false 1010 1010;
        Task.mk 1 "Oldest Task" (value "Created first") false 1000 1000 ].
Proof. reflexivity. Qed.

(** The scenario of the spec, as it runs on the handlers. *)
Example scenario_run :
  snd (run scenario empty_world)
  = [ TaskResponse (Resolved (Task.mk 1 "Buy milk" null false 1000 1000));
      TaskResponse (Resolved (Task.mk 2 "Walk the dog" null false 1200 1200));
      TaskResponse
        (Resolved (Task.mk 1 "Placeholder title" null true 1500 1501));
      TaskResponse (Resolved (Task.mk 1 "Buy milk" null true 1000 2000));
      TasksResponse
        (Resolved [ Task.mk 2 "Walk the dog" null false 1200 1200;
                    Task.mk 1 "Buy milk" null true 1000 2000 ]);
      DeleteResponse (Resolved (mkDeleteResult true));
      TaskResponse (Rejected (Error "Task with id 2 not found"));
      TasksResponse (Resolved [ Task.mk 1 "Buy milk" null true 1000 2000 ]) ].
Proof. reflexivity. Qed.

(** The id of a created task is new to the table. *)
Lemma createTask_id_fresh (now : Z) (input : CreateTaskInput) (w : World) :
  ids_assigned w ->
  forall r, In r (rows (db w)) -> Task.id r <> next_id (db w).
Proof.
  intros [Hlt _] r Hr. rewrite Forall_forall in Hlt.
  specialize (Hlt r Hr). lia.
Qed.

(** ** The input schemas *)

Lemma z_min_1_accepts (message : optional string) (v : jsval) (s : string) :
  z_min 1 message z_string v = inr s <-> v = JString s /\ s <> "".
Proof.
  unfold z_min, z_string. split.
  - destruct v; try discriminate. destruct s0; simpl; [discriminate|].
    intros [= <-]. split; [reflexivity | discriminate].
  - intros [-> Hs]. destruct s; [contradiction | reflexivity].
Qed.

Lemma z_optional_nullable_string_accepts (v : jsval)
    (d : optional (nullable string)) :
  z_optional (z_nullable z_string) v = inr d <->
  v = match d with
      | undefined => JUndefined
      | present null => JNull
      | present (value s) => JString s
      end.
Proof.
  unfold z_optional, z_nullable, z_string. split.
  - destruct v; try discriminate; intros [= <-]; reflexivity.
  - intros ->. destruct d as [|[|s]]; reflexivity.
Qed.

(** What the create schema lets through: an object whose [title] is a
    string of at least one character and whose [description] is
    missing, null or a string; the input has these two values. *)
Theorem createTaskInputSchema_accepts_only (raw : jsval)
    (input : CreateTaskInput) :
  createTaskInputSchema raw = inr input ->
  exists props : list (string * jsval),
    raw = JObject props /\
    get_prop "title" props = JString (CreateTaskInput.title input) /\
    CreateTaskInput.title input <> "" /\
    get_prop "description" props
    = match CreateTaskInput.description input with
      | undefined => JUndefined
      | present null => JNull
      | present (value s) => JString s
      end.
Proof.
  unfold createTaskInputSchema. destruct raw; try discriminate.
  cbv zeta. intros H. exists props. split; [reflexivity|].
  destruct (z_min 1 (present "Title is required") z_string
              (get_prop "title" props)) as [i|t] eqn:Et;
    [discriminate|].
  destruct (z_optional (z_nullable z_string) (get_prop "description" props))
    as [i|d] eqn:Ed; [discriminate|].
  injection H as <-. simpl.
  apply z_min_1_accepts in Et. destruct Et as [Et Hne].
  apply z_optional_nullable_string_accepts in Ed. auto.
Qed.

Lemma createTaskInputSchema_accepts_only_witness :
  exists props : list (string * jsval),
    JObject [("title", JString "Simple task")] = JObject props /\
    get_prop "title" props = JString "Simple task" /\
    "Simple task" <> "" /\
    get_prop "description" props = JUndefined.
Proof.
  apply (createTaskInputSchema_accepts_only
           (JObject [("title", JString "Simple task")])
           (CreateTaskInput.mk "Simple task" undefined)).
  reflexivity.
Defined.

(** A create input with a non-empty title, sent as an object, is
    parsed back to itself. *)
Theorem createTaskInputSchema_round_trip (input : CreateTaskInput) :
  CreateTaskInput.title input <> "" ->
  createTaskInputSchema (js_of_CreateTaskInput input) = inr input.
Proof.
  destruct input as [t d]. simpl. intros Ht.
  destruct t as [|c t]; [contradiction|].
  destruct d as [|[|s]]; reflexivity.
Qed.

Lemma createTaskInputSchema_round_trip_witness :
  createTaskInputSchema
    (js_of_CreateTaskInput
       (CreateTaskInput.mk "Task without description" (present null)))
  = inr (CreateTaskInput.mk "Task without description" (present null)).
Proof.
  apply (createTaskInputSchema_round_trip
           (CreateTaskInput.mk "Task without description" (present null))).
  discriminate.
Defined.

Lemma updateTaskInputSchema_title_nonempty (raw : jsval)
    (input : UpdateTaskInput) :
  updateTaskInputSchema raw = inr input ->
  UpdateTaskInput.title input <> present "".
Proof.
  unfold updateTaskInputSchema. destruct raw; try discriminate.
  cbv zeta.
  destruct (z_number (get_prop "id" props)); [discriminate|].
  destruct (z_optional (z_min 1 undefined z_string) (get_prop "title" props))
    as [?|t] eqn:Et; [discriminate|].
  destruct (z_optional (z_nullable z_string) (get_prop "description" props));
    [discriminate|].
  destruct (z_optional z_boolean (get_prop "completed" props));
    [discriminate|].
  intros [= <-]. simpl. intros ->.
  unfold z_optional in Et.
  destruct (get_prop "title" props); try discriminate.
  destruct (z_min 1 undefined z_string (JString s)) as [?|s'] eqn:Em;
    [discriminate|].
  injection Et as ->. apply z_min_1_accepts in Em. now destruct Em.
Qed.

(** What the update schema lets through: a numeric [id], and a
    [title] that, when given, has at least one character. *)
Theorem updateTaskInputSchema_accepts_only (raw : jsval)
    (input : UpdateTaskInput) :
  updateTaskInputSchema raw = inr input ->
  exists props : list (string * jsval),
    raw = JObject props /\
    get_prop "id" props = JNumber (UpdateTaskInput.id input) /\
    match UpdateTaskInput.title input with
    | undefined => get_prop "title" props = JUndefined
    | present s => get_prop "title" props = JString s /\ s <> ""
    end /\
    get_prop "description" props
    = match UpdateTaskInput.description input with
      | undefined => JUndefined
      | present null => JNull
      | present (value s) => JString s
      end /\
    get_prop "completed" props
    = match UpdateTaskInput.completed input with
      | undefined => JUndefined
      | present b => JBool b
      end.
Proof.
  unfold updateTaskInputSchema. destruct raw; try discriminate.
  cbv zeta. intros H. exists props. split; [reflexivity|].
  destruct (z_number (get_prop "id" props)) as [?|i] eqn:Ei;
    [discriminate|].
  destruct (z_optional (z_min 1 undefined z_string) (get_prop "title" props))
    as [?|t] eqn:Et; [discriminate|].
  destruct (z_optional (z_nullable z_string) (get_prop "description" props))
    as [?|d] eqn:Ed; [discriminate|].
  destruct (z_optional z_boolean (get_prop "completed" props))
    as [?|c] eqn:Ec; [discriminate|].
  injection H as <-. simpl.
  apply z_optional_nullable_string_accepts in Ed.
  repeat split.
  - unfold z_number in Ei. destruct (get_prop "id" props); try discriminate.
    now injection Ei as ->.
  - unfold z_optional in Et.
    destruct (get_prop "title" props) eqn:Eg; try discriminate.
    + now injection Et as <-.
    + destruct (z_min 1 undefined z_string (JString s)) as [?|s'] eqn:Em;
        [discriminate|].
      injection Et as <-. apply z_min_1_accepts in Em.
      destruct Em as [[= ->] Hne]. now split.
  - exact Ed.
  - unfold z_optional, z_boolean in Ec.
    destruct (get_prop "completed" props); try discriminate;
      now injection Ec as <-.
Qed.

Lemma updateTaskInputSchema_accepts_only_witness :
  exists props : list (string * jsval),
    JObject [("id", JNumber 1); ("title", JString "Updated Task Title")]
    = JObject props /\
    get_prop "id" props = JNumber 1 /\
    (get_prop "title" props = JString "Updated Task Title" /\
     "Updated Task Title" <> "") /\
    get_prop "description" props = JUndefined /\
    get_prop "completed" props = JUndefined.
Proof.
  apply (updateTaskInputSchema_accepts_only
           (JObject [("id", JNumber 1);
                     ("title", JString "Updated Task Title")])
           (UpdateTaskInput.mk 1 (present "Updated Task Title")
                               undefined undefined)).
  reflexivity.
Defined.

(** An update input whose title, when given, is not empty, sent as an
    object, is parsed back to itself, whichever fields it omits. *)
Theorem updateTaskInputSchema_round_trip (input : UpdateTaskInput) :
  UpdateTaskInput.title input <> present "" ->
  updateTaskInputSchema (js_of_UpdateTaskInput input) = inr input.
Proof.
  destruct input as [i t d c]. simpl. intros Ht.
  destruct t as [|[|a t]]; [|contradiction|];
    destruct d as [|[|s]]; destruct c as [|b]; reflexivity.
Qed.

Lemma updateTaskInputSchema_round_trip_witness :
  updateTaskInputSchema
    (js_of_UpdateTaskInput
       (UpdateTaskInput.mk 1 undefined (present null) (present true)))
  = inr (UpdateTaskInput.mk 1 undefined (present null) (present true)).
Proof.
  apply (updateTaskInputSchema_round_trip
           (UpdateTaskInput.mk 1 undefined (present null) (present true))).
  discriminate.
Defined.

(** The update schema turns down an empty title, though it lets the
    title be left out.  An object with a numeric [id], the empty string
    as [title], and a [description] and a [completed] that are valid,
    fails with one issue, the too-small one at [title]; an object with
    the same [id], [description] and [completed] and no [title] is
    accepted, as the update that leaves the title out. *)
Theorem updateTaskInputSchema_rejects_empty_title
    (props props' : list (string * jsval)) (i : Z)
    (d : optional (nullable string)) (c : optional bool) :
  get_prop "id" props = JNumber i ->
  get_prop "title" props = JString "" ->
  z_optional (z_nullable z_string) (get_prop "description" props) = inr d ->
  z_optional z_boolean (get_prop "completed" props) = inr c ->
  get_prop "id" props' = get_prop "id" props ->
  get_prop "title" props' = JUndefined ->
  get_prop "description" props' = get_prop "description" props ->
  get_prop "completed" props' = get_prop "completed" props ->
  updateTaskInputSchema (JObject props)
  = inl (ZodError [("title", too_small undefined)]) /\
  updateTaskInputSchema (JObject props')
  = inr (UpdateTaskInput.mk i undefined d c).
Proof.
  intros Hi Ht Hd Hc Hi' Ht' Hd' Hc'. unfold updateTaskInputSchema.
  rewrite Hi', Ht', Hd', Hc', Hi, Ht, Hd, Hc. split; reflexivity.
Qed.

Lemma updateTaskInputSchema_rejects_empty_title_witness :
  updateTaskInputSchema
    (JObject [("id", JNumber 1); ("title", JString "");
              ("completed", JBool true)])
  = inl (ZodError [("title", too_small undefined)]) /\
  updateTaskInputSchema (JObject [("id", JNumber 1); ("completed", JBool true)])
  = inr (UpdateTaskInput.mk 1 undefined undefined (present true)).
Proof.
  apply (updateTaskInputSchema_rejects_empty_title
           [("id", JNumber 1); ("title", JString "");
            ("completed", JBool true)]
           [("id", JNumber 1); ("completed", JBool true)]
           1 undefined (present true)); reflexivity.
Defined.

(** The toggle schema accepts exactly the objects with a numeric [id]
    and a boolean [completed]: unlike an update, a toggle with no
    [completed] is not valid. *)
Theorem toggleTaskInputSchema_accepts_iff (props : list (string * jsval))
    (input : ToggleTaskInput) :
  toggleTaskInputSchema (JObject props) = inr input <->
  get_prop "id" props = JNumber (ToggleTaskInput.id input) /\
  get_prop "completed" props = JBool (ToggleTaskInput.completed input).
Proof.
  unfold toggleTaskInputSchema, z_number, z_boolean. cbv zeta. split.
  - destruct (get_prop "id" props); destruct (get_prop "completed" props);
      try discriminate.
    intros [= <-]. split; reflexivity.
  - intros [-> ->]. now destruct input.
Qed.

(** A request that the toggle schema accepts and that carries no
    [title] and no [description] is accepted by the update schema as the
    update of [completed] alone, on the same id. *)
Theorem toggle_input_is_update_input (props : list (string * jsval))
    (input : ToggleTaskInput) :
  toggleTaskInputSchema (JObject props) = inr input ->
  get_prop "title" props = JUndefined ->
  get_prop "description" props = JUndefined ->
  updateTaskInputSchema (JObject props)
  = inr (UpdateTaskInput.mk (ToggleTaskInput.id input) undefined undefined
                            (present (ToggleTaskInput.completed input))).
Proof.
  intros H Ht Hd. unfold toggleTaskInputSchema, z_number, z_boolean in H.
  cbv zeta in H. unfold updateTaskInputSchema. rewrite Ht, Hd.
  destruct (get_prop "id" props); destruct (get_prop "completed" props);
    try discriminate.
  injection H as <-. reflexivity.
Qed.

Lemma toggle_input_is_update_input_witness :
  updateTaskInputSchema (js_of_ToggleTaskInput (ToggleTaskInput.mk 1 true))
  = inr (UpdateTaskInput.mk 1 undefined undefined (present true)).
Proof.
  apply (toggle_input_is_update_input
           [("id", JNumber 1); ("completed", JBool true)]
           (ToggleTaskInput.mk 1 true)); reflexivity.
Defined.

(** Without a numeric [id] the update, toggle and delete schemas all
    fail, and the first issue they report is the one at [id]. *)
Theorem schemas_require_id (props : list (string * jsval)) :
  (forall i, get_prop "id" props <> JNumber i) ->
  (exists rest, updateTaskInputSchema (JObject props)
                = inl (ZodError (("id", invalid_type) :: rest))) /\
  (exists rest, toggleTaskInputSchema (JObject props)
                = inl (ZodError (("id", invalid_type) :: rest))) /\
  deleteTaskInputSchema (JObject props)
  = inl (ZodError [("id", invalid_type)]).
Proof.
  intros H.
  assert (Hi : z_number (get_prop "id" props) = inl invalid_type).
  { unfold z_number. destruct (get_prop "id" props); try reflexivity.
    now destruct (H z). }
  unfold updateTaskInputSchema, toggleTaskInputSchema, deleteTaskInputSchema.
  rewrite Hi. cbv zeta. repeat split.
  - destruct (z_optional (z_min 1 undefined z_string) (get_prop "title" props));
      destruct (z_optional (z_nullable z_string)
                  (get_prop "description" props));
      destruct (z_optional z_boolean (get_prop "completed" props));
      eexists; reflexivity.
  - destruct (z_boolean (get_prop "completed" props)); eexists; reflexivity.
Qed.

Lemma schemas_require_id_witness :
  (exists rest, updateTaskInputSchema (JObject [("title", JString "x")])
                = inl (ZodError (("id", invalid_type) :: rest))) /\
  (exists rest, toggleTaskInputSchema (JObject [("title", JString "x")])
                = inl (ZodError (("id", invalid_type) :: rest))) /\
  deleteTaskInputSchema (JObject [("title", JString "x")])
  = inl (ZodError [("id", invalid_type)]).
Proof.
  apply (schemas_require_id [("title", JString "x")]).
  intros i. discriminate.
Defined.

(** ** Reading back what a handler wrote *)

Lemma filter_eq_id_unique (i : Z) (l : list Task) :
  NoDup (map Task.id l) ->
  forall r m, filter (eq_id i) l = r :: m -> m = [].
Proof.
  induction l as [|x l IH]; simpl; intros Hnd r m H; [discriminate|].
  inversion Hnd as [|? ? Hx Hl]; subst.
  destruct (eq_id i x) eqn:E; [|now apply (IH Hl r)].
  injection H as _ <-. apply eq_id_true in E.
  apply filter_none. intros y Hy. apply eq_id_false. intros Hid.
  apply Hx. apply in_map_iff. exists y. split; [congruence | exact Hy].
Qed.

(** After a creation in a store whose ids are those its sequence gave
    out, the selection by the returned id yields the returned task and
    nothing else. *)
Theorem createTask_then_select (now : Z) (input : CreateTaskInput)
    (w : World) :
  ids_assigned w ->
  exists t : Task,
    snd (createTask now input w) = Resolved t /\
    select_where (eq_id (Task.id t)) (db (fst (createTask now input w)))
    = [t].
Proof.
  intros [Hlt _]. rewrite createTask_eq. cbv zeta. eexists.
  split; [reflexivity|]. unfold select_where. cbn [fst db rows Task.id].
  rewrite filter_app, filter_none.
  - simpl. unfold eq_id. simpl. now rewrite Z.eqb_refl.
  - intros r Hr. apply eq_id_false. rewrite Forall_forall in Hlt.
    specialize (Hlt r Hr). lia.
Qed.

Lemma createTask_then_select_witness :
  exists t : Task,
    snd (createTask 1500 (CreateTaskInput.mk "Second task" undefined)
           one_task_world) = Resolved t /\
    select_where (eq_id (Task.id t))
      (db (fst (createTask 1500 (CreateTaskInput.mk "Second task" undefined)
                  one_task_world)))
    = [t].
Proof.
  apply (createTask_then_select 1500
           (CreateTaskInput.mk "Second task" undefined) one_task_world).
  split.
  - repeat constructor.
  - simpl. repeat constructor. intros [].
Defined.

(** The tasks of [N] creations in a row carry the next [N] values of
    the id sequence, so no two of them have the same id. *)
Theorem create_all_ids (cs : list (Z * CreateTaskInput)) :
  forall w : World,
  exists ts : list Task,
    snd (create_all cs w) = map Resolved ts /\
    map Task.id ts
    = map (fun k => next_id (db w) + Z.of_nat k) (seq 0 (List.length cs)) /\
    NoDup (map Task.id ts).
Proof.
  assert (H : forall w : World,
             exists ts : list Task,
               snd (create_all cs w) = map Resolved ts /\
               map Task.id ts
               = map (fun k => next_id (db w) + Z.of_nat k)
                     (seq 0 (List.length cs))).
  { induction cs as [|[now input] cs IH]; intros w.
    - exists []. split; reflexivity.
    - cbn [create_all]. rewrite createTask_eq. cbv zeta.
      set (row := Task.mk _ _ _ _ _ _). set (w1 := mkWorld _ _).
      destruct (IH w1) as (ts & Hos & Hids).
      destruct (create_all cs w1) as [w2 os]. cbn [fst snd] in *.
      exists (row :: ts). split; [now rewrite Hos|].
      cbn [List.length seq map]. f_equal.
      + subst row. simpl. lia.
      + rewrite Hids, <- seq_shift, map_map. apply map_ext.
        intros k. subst w1. cbn [db next_id]. lia. }
  intros w. destruct (H w) as (ts & Hos & Hids).
  exists ts. repeat split; try assumption.
  rewrite Hids. apply Finite.Injective_map_NoDup; [|apply seq_NoDup].
  intros a b Hab. lia.
Qed.

(** ** toggleTask on the table *)

Lemma toggleTask_db (now : Z) (input : ToggleTaskInput) (w : World) :
  db (fst (toggleTask now input w))
  = fst (update_returning
           (fun r => Task.mk (Task.id r) (Task.title r) (Task.description r)
                             (ToggleTaskInput.completed input)
                             (Task.created_at r) now)
           (eq_id (ToggleTaskInput.id input)) (db w)).
Proof.
  unfold toggleTask, update_returning.
  destruct (map _ (filter _ _)); reflexivity.
Qed.

Lemma toggleTask_outcome (now : Z) (input : ToggleTaskInput) (w : World) :
  snd (toggleTask now input w)
  = match filter (eq_id (ToggleTaskInput.id input)) (rows (db w)) with
    | [] => Rejected (Error ("Task with id "
                             ++ string_of_number (ToggleTaskInput.id input)
                             ++ " not found")%string)
    | r :: _ => Resolved (Task.mk (Task.id r) (Task.title r)
                                  (Task.description r)
                                  (ToggleTaskInput.completed input)
                                  (Task.created_at r) now)
    end.
Proof.
  unfold toggleTask, update_returning.
  destruct (filter _ _); reflexivity.
Qed.

(** [toggleTask] resolves to a task exactly when the table has a row
    with the id, and rejects exactly when it has none; it never
    resolves to [undefined]. *)
Theorem toggleTask_resolves_iff (now : Z) (input : ToggleTaskInput)
    (w : World) :
  ((exists t, snd (toggleTask now input w) = Resolved t) <->
   (exists r, In r (rows (db w)) /\ Task.id r = ToggleTaskInput.id input)) /\
  ((exists e, snd (toggleTask now input w) = Rejected e) <->
   (forall r, In r (rows (db w)) -> Task.id r <> ToggleTaskInput.id input)) /\
  snd (toggleTask now input w) <> ResolvedUndefined.
Proof.
  rewrite toggleTask_outcome.
  destruct (filter (eq_id (ToggleTaskInput.id input)) (rows (db w)))
    as [|r m] eqn:E.
  - assert (Hnone : forall r, In r (rows (db w)) ->
                              Task.id r <> ToggleTaskInput.id input).
    { intros r Hr Hid.
      assert (H : In r (filter (eq_id (ToggleTaskInput.id input))
                          (rows (db w)))).
      { apply filter_In. split; [exact Hr | now apply eq_id_true]. }
      rewrite E in H. exact H. }
    repeat split; try discriminate.
    + intros [t Ht]. discriminate.
    + intros (r & Hr & Hid). now destruct (Hnone r Hr).
    + intros _. exact Hnone.
    + intros _. eexists. reflexivity.
  - assert (Hr : In r (rows (db w)) /\ Task.id r = ToggleTaskInput.id input).
    { assert (H : In r (filter (eq_id (ToggleTaskInput.id input))
                          (rows (db w)))) by (rewrite E; now left).
      apply filter_In in H. destruct H as [H1 H2].
      apply eq_id_true in H2. now split. }
    repeat split; try discriminate.
    + intros _. now exists r.
    + intros _. eexists. reflexivity.
    + intros [e He]. discriminate.
    + intros H. destruct Hr as [Hin Hid]. now destruct (H r Hin).
Qed.

Lemma toggleTask_not_found_witness :
  toggleTask 2000 (ToggleTaskInput.mk 99999 true) one_task_world
  = (mkWorld (db one_task_world)
       [("Task toggle failed:", Error "Task with id 99999 not found")],
     Rejected (Error "Task with id 99999 not found")).
Proof.
  apply (toggleTask_not_found 2000 (ToggleTaskInput.mk 99999 true)
           one_task_world).
  simpl. intros r [<-|[]]. discriminate.
Defined.

(** ** The not-found message *)

Lemma length_append (a b : string) :
  String.length (a ++ b)%string = (String.length a + String.length b)%nat.
Proof. induction a as [|c a IH]; simpl; [reflexivity | now rewrite IH]. Qed.

Lemma append_inj_r (s : string) :
  forall a b : string, (a ++ s)%string = (b ++ s)%string -> a = b.
Proof.
  induction a as [|c a IH]; destruct b as [|c' b]; simpl; intros H.
  - reflexivity.
  - apply (f_equal String.length) in H. simpl in H.
    rewrite length_append in H. lia.
  - apply (f_equal String.length) in H. simpl in H.
    rewrite length_append in H. lia.
  - injection H as -> H. f_equal. now apply IH.
Qed.

Lemma string_of_number_inj (i j : Z) :
  string_of_number i = string_of_number j -> i = j.
Proof.
  unfold string_of_number. intros H.
  assert (Hnn : forall z, Z.to_int z <> Decimal.Pos Decimal.Nil /\
                          Z.to_int z <> Decimal.Neg Decimal.Nil).
  { intros [|p|p]; simpl; split; try discriminate;
      intros [= Hp]; now apply DecimalPos.Unsigned.to_uint_nonnil in Hp. }
  apply (f_equal NilZero.int_of_string) in H.
  rewrite !NilZero.isi in H by apply Hnn.
  injection H as H. now apply DecimalZ.to_int_inj.
Qed.

(** The error of a rejected toggle tells which id was missing: two
    toggles rejected with the same error were asked for the same id. *)
Theorem toggleTask_error_identifies_id (now1 now2 : Z)
    (input1 input2 : ToggleTaskInput) (w1 w2 : World) (e : error) :
  snd (toggleTask now1 input1 w1) = Rejected e ->
  snd (toggleTask now2 input2 w2) = Rejected e ->
  ToggleTaskInput.id input1 = ToggleTaskInput.id input2.
Proof.
  rewrite !toggleTask_outcome.
  destruct (filter _ (rows (db w1))); [|discriminate].
  destruct (filter _ (rows (db w2))); [|discriminate].
  intros [= <-] [= H]. simpl in H.
  apply append_inj_r in H. symmetry. now apply string_of_number_inj.
Qed.

Lemma toggleTask_error_identifies_id_witness :
  ToggleTaskInput.id (ToggleTaskInput.mk 99999 true)
  = ToggleTaskInput.id (ToggleTaskInput.mk 99999 false).
Proof.
  apply (toggleTask_error_identifies_id 2000 3000
           (ToggleTaskInput.mk 99999 true) (ToggleTaskInput.mk 99999 false)
           empty_world one_task_world
           (Error "Task with id 99999 not found")); reflexivity.
Defined.

(** ** What toggleTask leaves as it is *)

Lemma filter_other_ids (i : Z) (s : Task -> Task) (l : list Task) :
  (forall r, Task.id (s r) = Task.id r) ->
  filter (fun r => negb (eq_id i r))
         (map (fun r => if eq_id i r then s r else r) l)
  = filter (fun r => negb (eq_id i r)) l.
Proof.
  intros Hs. induction l as [|x l IH]; simpl; [reflexivity|].
  destruct (eq_id i x) eqn:E.
  - unfold eq_id in *. rewrite Hs, E. simpl. exact IH.
  - rewrite E. simpl. now rewrite IH.
Qed.

(** [toggleTask] keeps the number of rows and the id sequence; the
    rows after it carry the ids, titles, descriptions and creation
    times of the rows before it, each as often as before; and the rows
    of the other ids are the same rows as before.  Nothing is said of
    the order of the rows. *)
Theorem toggleTask_frame (now : Z) (input : ToggleTaskInput) (w : World) :
  let w' := fst (toggleTask now input w) in
  let other := fun r => negb (eq_id (ToggleTaskInput.id input) r) in
  let kept := fun r => (Task.id r, Task.title r, Task.description r,
                        Task.created_at r) in
  List.length (rows (db w')) = List.length (rows (db w)) /\
  Permutation (map kept (rows (db w'))) (map kept (rows (db w))) /\
  Permutation (filter other (rows (db w'))) (filter other (rows (db w))) /\
  next_id (db w') = next_id (db w).
Proof.
  intros w' other kept. subst w' other kept. rewrite toggleTask_db.
  unfold update_returning. cbn [fst rows next_id]. repeat split.
  - apply length_map.
  - rewrite map_map.
    erewrite map_ext; [apply Permutation_refl|].
    intros r. now destruct (eq_id _ r).
  - rewrite filter_other_ids; [apply Permutation_refl | reflexivity].
Qed.

(** After a toggle that resolved, in a store with unique ids, the
    selection by the id yields the returned task and nothing else; the
    task has the id and the completion asked for and [updated_at] set
    to the time of the call. *)
Theorem toggleTask_then_select (now : Z) (input : ToggleTaskInput)
    (w : World) (t : Task) :
  ids_assigned w ->
  snd (toggleTask now input w) = Resolved t ->
  select_where (eq_id (ToggleTaskInput.id input))
               (db (fst (toggleTask now input w))) = [t] /\
  Task.id t = ToggleTaskInput.id input /\
  Task.completed t = ToggleTaskInput.completed input /\
  Task.updated_at t = now.
Proof.
  intros [_ Hnd]. rewrite toggleTask_outcome, toggleTask_db.
  unfold select_where, update_returning. cbn [fst rows].
  destruct (filter (eq_id (ToggleTaskInput.id input)) (rows (db w)))
    as [|r m] eqn:E; [discriminate|].
  intros [= <-].
  assert (Hm : m = []) by exact (filter_eq_id_unique _ _ Hnd r m E).
  subst m.
  assert (Hr : Task.id r = ToggleTaskInput.id input).
  { assert (H : In r (filter (eq_id (ToggleTaskInput.id input))
                        (rows (db w)))) by (rewrite E; now left).
    apply filter_In in H. now apply eq_id_true. }
  repeat split; try assumption.
  revert E. generalize (rows (db w)).
  induction l as [|x l IH]; simpl; [discriminate|].
  destruct (eq_id (ToggleTaskInput.id input) x) eqn:Ex; simpl.
  - intros [= -> Hl]. unfold eq_id at 1. simpl.
    apply eq_id_true in Ex. rewrite Ex, Z.eqb_refl. f_equal.
    clear IH. induction l as [|y l IH]; [reflexivity|]. simpl in *.
    destruct (eq_id (ToggleTaskInput.id input) y) eqn:Ey; [discriminate|].
    rewrite Ey. now apply IH.
  - rewrite Ex. exact IH.
Qed.

Lemma toggleTask_then_select_witness :
  select_where (eq_id 1)
    (db (fst (toggleTask 2000 (ToggleTaskInput.mk 1 true) one_task_world)))
  = [Task.mk 1 "Original Task" (value "Original description") true 1000 2000]
  /\ 1 = 1 /\ true = true /\ 2000 = 2000.
Proof.
  apply (toggleTask_then_select 2000 (ToggleTaskInput.mk 1 true)
           one_task_world
           (Task.mk 1 "Original Task" (value "Original description")
                    true 1000 2000)).
  - split; simpl; repeat constructor. intros [].
  - reflexivity.
Defined.

(** Of two toggles of the same id the later one decides: the table
    and the answer after both are those of the later one alone. *)
Theorem toggleTask_last_wins (now1 now2 : Z) (id : Z) (c1 c2 : bool)
    (w : World) :
  let w1 := fst (toggleTask now1 (ToggleTaskInput.mk id c1) w) in
  db (fst (toggleTask now2 (ToggleTaskInput.mk id c2) w1))
  = db (fst (toggleTask now2 (ToggleTaskInput.mk id c2) w)) /\
  snd (toggleTask now2 (ToggleTaskInput.mk id c2) w1)
  = snd (toggleTask now2 (ToggleTaskInput.mk id c2) w).
Proof.
  intros w1. subst w1. rewrite !toggleTask_outcome, !toggleTask_db.
  unfold update_returning. cbn [fst rows next_id ToggleTaskInput.id
                                 ToggleTaskInput.completed].
  generalize (rows (db w)). intros l. split.
  - f_equal. rewrite map_map. apply map_ext. intros r.
    destruct (eq_id id r) eqn:E; [|now rewrite E].
    unfold eq_id in *. simpl. now rewrite E.
  - induction l as [|x l IH]; simpl; [reflexivity|].
    destruct (eq_id id x) eqn:E.
    + unfold eq_id in *. simpl. now rewrite E.
    + rewrite E. exact IH.
Qed.

(** Toggles of different ids do not interfere.  Two toggles are served
    one after the other, the first reading the clock at [now1] and the
    second at [now2]; whichever of the two inputs is served first, the
    tables that result have the same rows on every field but
    [updated_at], and the same id sequence. *)
Theorem toggleTask_commute (now1 now2 : Z) (input1 input2 : ToggleTaskInput)
    (w : World) :
  ToggleTaskInput.id input1 <> ToggleTaskInput.id input2 ->
  let w12 := fst (toggleTask now2 input2 (fst (toggleTask now1 input1 w))) in
  let w21 := fst (toggleTask now2 input1 (fst (toggleTask now1 input2 w))) in
  Permutation (map shown (rows (db w12))) (map shown (rows (db w21))) /\
  next_id (db w12) = next_id (db w21).
Proof.
  intros Hne w12 w21. subst w12 w21. rewrite !toggleTask_db.
  unfold update_returning. cbn [fst rows next_id].
  split; [|reflexivity]. rewrite !map_map.
  erewrite map_ext; [apply Permutation_refl|].
  intros r. cbv beta.
  destruct (eq_id (ToggleTaskInput.id input1) r) eqn:E1;
    destruct (eq_id (ToggleTaskInput.id input2) r) eqn:E2;
    unfold eq_id in *; simpl; rewrite ?E1, ?E2; try reflexivity.
  apply Z.eqb_eq in E1, E2. congruence.
Qed.

Lemma toggleTask_commute_witness :
  Permutation
    (map shown
       (rows (db (fst (toggleTask 3000 (ToggleTaskInput.mk 2 true)
                         (fst (toggleTask 2000 (ToggleTaskInput.mk 1 true)
                                 (fst (create_all oldest_then_newest
                                         empty_world)))))))))
    (map shown
       (rows (db (fst (toggleTask 3000 (ToggleTaskInput.mk 1 true)
                         (fst (toggleTask 2000 (ToggleTaskInput.mk 2 true)
                                 (fst (create_all oldest_then_newest
                                         empty_world))))))))) /\
  next_id
    (db (fst (toggleTask 3000 (ToggleTaskInput.mk 2 true)
                (fst (toggleTask 2000 (ToggleTaskInput.mk 1 true)
                        (fst (create_all oldest_then_newest
                                empty_world)))))))
  = next_id
      (db (fst (toggleTask 3000 (ToggleTaskInput.mk 1 true)
                  (fst (toggleTask 2000 (ToggleTaskInput.mk 2 true)
                          (fst (create_all oldest_then_newest
                                  empty_world))))))).
Proof.
  apply (toggleTask_commute 2000 3000 (ToggleTaskInput.mk 1 true)
           (ToggleTaskInput.mk 2 true)
           (fst (create_all oldest_then_newest empty_world))).
  discriminate.
Defined.

(** When the clock has moved on since the last write to the store, the
    task a toggle returns has [updated_at] later than its [created_at]
    and later than the [updated_at] of the row it replaced. *)
Theorem toggleTask_advances_updated_at (t0 now : Z) (input : ToggleTaskInput)
    (w : World) (t : Task) :
  store_settled t0 w -> t0 < now ->
  snd (toggleTask now input w) = Resolved t ->
  Task.created_at t < Task.updated_at t /\
  exists r : Task,
    In r (rows (db w)) /\ Task.id r = Task.id t /\
    Task.updated_at r < Task.updated_at t.
Proof.
  intros Hw Hlt. rewrite toggleTask_outcome.
  destruct (filter (eq_id (ToggleTaskInput.id input)) (rows (db w)))
    as [|r m] eqn:E; [discriminate|].
  intros [= <-]. simpl.
  assert (Hr : In r (rows (db w))).
  { eapply proj1. apply filter_In. rewrite E. now left. }
  unfold store_settled in Hw. rewrite Forall_forall in Hw.
  destruct (Hw r Hr) as [H1 H2]. split; [lia|].
  exists r. repeat split; [exact Hr | lia].
Qed.

Lemma toggleTask_advances_updated_at_witness :
  1000 < 2000 /\
  exists r : Task,
    In r (rows (db one_task_world)) /\ Task.id r = 1 /\
    Task.updated_at r < 2000.
Proof.
  apply (toggleTask_advances_updated_at 1000 2000 (ToggleTaskInput.mk 1 true)
           one_task_world
           (Task.mk 1 "Original Task" (value "Original description")
                    true 1000 2000)).
  - repeat constructor; simpl; lia.
  - lia.
  - reflexivity.
Defined.

(** ** updateTask on valid inputs *)

(** For an input that passed the update schema, [updateTask] returns
    the id of the input and every field the input gives: the title,
    the description, null included, and the completion. *)
Theorem updateTask_echoes_valid_input (now1 now2 : Z) (raw : jsval)
    (input : UpdateTaskInput) (w : World) :
  updateTaskInputSchema raw = inr input ->
  exists t : Task,
    snd (updateTask now1 now2 input w) = Resolved t /\
    Task.id t = UpdateTaskInput.id input /\
    (forall s, UpdateTaskInput.title input = present s -> Task.title t = s) /\
    (forall d, UpdateTaskInput.description input = present d ->
               Task.description t = d) /\
    (forall b, UpdateTaskInput.completed input = present b ->
               Task.completed t = b).
Proof.
  intros H. apply updateTaskInputSchema_title_nonempty in H.
  eexists. split; [reflexivity|]. simpl. repeat split.
  - intros s Hs. rewrite Hs in H |- *.
    destruct s; [now destruct H | reflexivity].
  - intros d Hd. now rewrite Hd.
  - intros b Hb. rewrite Hb. now destruct b.
Qed.

Lemma updateTask_echoes_valid_input_witness :
  exists t : Task,
    snd (updateTask 2000 2001
           (UpdateTaskInput.mk 1 (present "Database Test Update") undefined
                               (present true))
           one_task_world) = Resolved t /\
    Task.id t = 1 /\
    (forall s, present "Database Test Update" = present s ->
               Task.title t = s) /\
    (forall d, @undefined (nullable string) = present d ->
               Task.description t = d) /\
    (forall b, present true = present b -> Task.completed t = b).
Proof.
  apply (updateTask_echoes_valid_input 2000 2001
           (JObject [("id", JNumber 1);
                     ("title", JString "Database Test Update");
                     ("completed", JBool true)])
           (UpdateTaskInput.mk 1 (present "Database Test Update") undefined
                               (present true))
           one_task_world).
  reflexivity.
Defined.

(** ** Ids along a run *)

(** Whatever requests the service has served since the empty store, no
    two rows of the table have the same id, and every id is one the
    sequence has already given out. *)
Theorem ids_unique_along_run (rs : list request) :
  NoDup (map Task.id (rows (db (fst (run rs empty_world))))) /\
  Forall (fun r => 1 <= Task.id r < next_id (db (fst (run rs empty_world))))
         (rows (db (fst (run rs empty_world)))).
Proof.
  assert (H : forall rs w,
             ids_assigned w /\ Forall (fun r => 1 <= Task.id r) (rows (db w)) /\
             1 <= next_id (db w) ->
             ids_assigned (fst (run rs w)) /\
             Forall (fun r => 1 <= Task.id r) (rows (db (fst (run rs w)))) /\
             1 <= next_id (db (fst (run rs w)))).
  { clear rs. induction rs as [|r rs IH]; intros w Hw; [exact Hw|].
    rewrite run_cons. cbn [fst]. apply IH.
    destruct Hw as (Hids & Hpos & Hn).
    split; [now apply handle_ids_assigned|].
    rewrite handle_fst_snd.
    destruct r as [now input| |now1 now2 input|now input|input]; cbn [fst].
    - rewrite createTask_eq. cbv zeta. cbn [fst db rows next_id]. split.
      + apply Forall_app. split; [exact Hpos|]. repeat constructor. exact Hn.
      + lia.
    - now split.
    - now split.
    - rewrite toggleTask_db. unfold update_returning. cbn [fst rows next_id].
      split; [|exact Hn]. apply Forall_map.
      eapply Forall_impl; [|exact Hpos]. intros x Hx.
      now destruct (eq_id _ x).
    - unfold deleteTask, delete_where. cbn [fst db rows next_id].
      split; [|exact Hn]. rewrite Forall_forall in *. intros x Hx.
      apply filter_In in Hx. now apply Hpos. }
  destruct (H rs empty_world) as ((Hlt & Hnd) & Hpos & _).
  { split; [exact empty_world_ids_assigned|]. split; [constructor|].
    simpl. lia. }
  split; [exact Hnd|]. rewrite Forall_forall in *. intros r Hr.
  specialize (Hlt r Hr). specialize (Hpos r Hr). lia.
Qed.

(** ** The page *)

(** The form sends nothing when the trimmed title is empty; what it
    sends otherwise is the trimmed title with a null description, and
    the create schema accepts it as it is. *)
Theorem handleCreateTask_input_valid (trim : string -> string)
    (st : App.State) :
  match handleCreateTask_input trim st with
  | Some input =>
      trim (App.newTaskTitle st) <> "" /\
      input = CreateTaskInput.mk (trim (App.newTaskTitle st)) (present null) /\
      createTaskInputSchema (js_of_CreateTaskInput input) = inr input
  | None => trim (App.newTaskTitle st) = ""
  end.
Proof.
  unfold handleCreateTask_input, truthy_string.
  destruct (String.eqb_spec (trim (App.newTaskTitle st)) "") as [E|E]; simpl.
  - exact E.
  - repeat split; [exact E|].
    destruct (trim (App.newTaskTitle st)); [contradiction | reflexivity].
Qed.

(** From the form to the list: when the form sends an input, the
    handler creates a task with the trimmed title, a null description
    and not completed; the page appends it after the tasks it has,
    shows it among the tasks to do, and empties the title field. *)
Theorem form_creates_task_to_do (trim : string -> string) (now : Z)
    (st : App.State) (w : World) (input : CreateTaskInput) :
  handleCreateTask_input trim st = Some input ->
  exists t : Task,
    snd (createTask now input w) = Resolved t /\
    Task.title t = trim (App.newTaskTitle st) /\
    Task.title t <> "" /\
    Task.description t = null /\
    App.tasks (handleCreateTask_settled (inr t) st) = App.tasks st ++ [t] /\
    In t (incompleteTasks (handleCreateTask_settled (inr t) st)) /\
    App.newTaskTitle (handleCreateTask_settled (inr t) st) = "" /\
    App.isCreating (handleCreateTask_settled (inr t) st) = false.
Proof.
  intros H. unfold handleCreateTask_input, truthy_string in H.
  destruct (String.eqb_spec (trim (App.newTaskTitle st)) "") as [E|E];
    simpl in H; [discriminate|].
  injection H as <-. rewrite createTask_eq. cbv zeta. eexists.
  split; [reflexivity|]. simpl. repeat split; try assumption.
  unfold incompleteTasks. simpl. apply filter_In. split; [|reflexivity].
  apply in_or_app. right. now left.
Qed.

Lemma form_creates_task_to_do_witness :
  exists t : Task,
    snd (createTask 1500 (CreateTaskInput.mk "Buy milk" (present null))
           one_task_world) = Resolved t /\
    Task.title t = "Buy milk" /\
    Task.title t <> "" /\
    Task.description t = null /\
    App.tasks (handleCreateTask_settled (inr t)
                 (App.mk [original_task] false "Buy milk" true []))
    = [original_task] ++ [t] /\
    In t (incompleteTasks
            (handleCreateTask_settled (inr t)
               (App.mk [original_task] false "Buy milk" true []))) /\
    App.newTaskTitle
      (handleCreateTask_settled (inr t)
         (App.mk [original_task] false "Buy milk" true [])) = "" /\
    App.isCreating
      (handleCreateTask_settled (inr t)
         (App.mk [original_task] false "Buy milk" true [])) = false.
Proof.
  apply (form_creates_task_to_do (fun s => s) 1500
           (App.mk [original_task] false "Buy milk" true [])
           one_task_world
           (CreateTaskInput.mk "Buy milk" (present null))).
  reflexivity.
Defined.

(** Every task of the page is in exactly one of its two sections: the
    tasks to do followed by the completed ones are the tasks in another
    order, and the two counts add up to the number of tasks. *)
Theorem sections_partition (st : App.State) :
  Permutation (App.tasks st) (incompleteTasks st ++ completedTasks st) /\
  (List.length (incompleteTasks st) + List.length (completedTasks st)
   = List.length (App.tasks st))%nat /\
  (forall t, In t (incompleteTasks st) -> ~ In t (completedTasks st)).
Proof.
  unfold incompleteTasks, completedTasks. generalize (App.tasks st).
  intros l. repeat split.
  - induction l as [|x l IH]; simpl; [constructor|].
    destruct (Task.completed x); simpl.
    + now apply Permutation_cons_app.
    + now constructor.
  - induction l as [|x l IH]; simpl; [reflexivity|].
    destruct (Task.completed x); simpl; lia.
  - intros t H1 H2. apply filter_In in H1, H2.
    destruct H1 as [_ H1], H2 as [_ H2]. rewrite H2 in H1. discriminate.
Qed.

(** [handleToggleTask] changes no field of a task of the page but
    [completed]: the ids, titles, descriptions and both timestamps are
    the ones the page had, in the same order, also when the call
    resolved; the [updated_at] of the response is not taken over. *)
Theorem handleToggleTask_keeps_fields (taskId : Z) (r : error + Task)
    (st : App.State) :
  let st' := handleToggleTask_settled taskId r st in
  map Task.id (App.tasks st') = map Task.id (App.tasks st) /\
  map Task.title (App.tasks st') = map Task.title (App.tasks st) /\
  map Task.description (App.tasks st')
  = map Task.description (App.tasks st) /\
  map Task.created_at (App.tasks st') = map Task.created_at (App.tasks st) /\
  map Task.updated_at (App.tasks st') = map Task.updated_at (App.tasks st).
Proof.
  destruct r as [e|t]; simpl; [repeat split|].
  rewrite !map_map.
  repeat split; apply map_ext; intros x; now destruct (Task.id x =? taskId).
Qed.

(** [handleDeleteTask]: when the call resolved with [success] true the
    page keeps the tasks of the other ids, in their order, and none of
    this id; when it resolved with [success] false, or threw, the page
    keeps all its tasks. *)
Theorem handleDeleteTask_settled_tasks (taskId : Z)
    (r : error + DeleteResult) (st : App.State) :
  let st' := handleDeleteTask_settled taskId r st in
  (r = inr (mkDeleteResult true) ->
   App.tasks st'
   = filter (fun t => negb (Task.id t =? taskId)) (App.tasks st) /\
   forall t, In t (App.tasks st') <->
             In t (App.tasks st) /\ Task.id t <> taskId) /\
  (r <> inr (mkDeleteResult true) -> App.tasks st' = App.tasks st).
Proof.
  split.
  - intros ->. simpl. split; [reflexivity|]. intros t.
    rewrite filter_In, negb_true_iff, Z.eqb_neq. reflexivity.
  - intros H. destruct r as [e|[[|]]]; simpl; try reflexivity.
    now destruct H.
Qed.

Lemma filter_nil_none (w : Task -> bool) (l : list Task) :
  filter w l = [] -> forall r, In r l -> w r = false.
Proof.
  intros H r Hr. destruct (w r) eqn:E; [|reflexivity].
  assert (Hin : In r (filter w l)) by (apply filter_In; now split).
  rewrite H in Hin. destruct Hin.
Qed.

(** A page that mirrors the table still mirrors it after a creation:
    the page appends the task the handler returned, which is the row
    the handler inserted. *)
Theorem handleCreateTask_keeps_mirror (now : Z) (input : CreateTaskInput)
    (w : World) (st : App.State) (r : error + Task) :
  mirrors st w ->
  snd (createTask now input w) = outcome_of r ->
  mirrors (handleCreateTask_settled r st) (fst (createTask now input w)).
Proof.
  unfold mirrors. intros Hm. rewrite createTask_eq. cbv zeta.
  cbn [fst snd db rows].
  destruct r as [e|t]; simpl; [discriminate|]. intros [= <-].
  rewrite !map_app. now apply Permutation_app_tail.
Qed.

Lemma handleCreateTask_keeps_mirror_witness :
  mirrors
    (handleCreateTask_settled
       (inr (Task.mk 2 "Second task" null false 1500 1500)) one_task_page)
    (fst (createTask 1500 (CreateTaskInput.mk "Second task" undefined)
            one_task_world)).
Proof.
  apply (handleCreateTask_keeps_mirror 1500
           (CreateTaskInput.mk "Second task" undefined) one_task_world
           one_task_page
           (inr (Task.mk 2 "Second task" null false 1500 1500))).
  - unfold mirrors. simpl. apply Permutation_refl.
  - reflexivity.
Defined.

(** A page that mirrors the table still mirrors it after a toggle,
    whether the handler resolved or rejected: on the fields the page
    shows, the page does to its tasks what the handler did to the rows. *)
Theorem handleToggleTask_keeps_mirror (now : Z) (taskId : Z)
    (completed : bool) (w : World) (st : App.State) (r : error + Task) :
  mirrors st w ->
  snd (toggleTask now (handleToggleTask_input taskId completed) w)
  = outcome_of r ->
  mirrors (handleToggleTask_settled taskId r st)
          (fst (toggleTask now (handleToggleTask_input taskId completed) w)).
Proof.
  unfold mirrors. intros Hm. rewrite toggleTask_outcome, toggleTask_db.
  unfold update_returning, handleToggleTask_input.
  cbn [fst rows ToggleTaskInput.id ToggleTaskInput.completed].
  destruct (filter (eq_id taskId) (rows (db w))) as [|r0 m] eqn:E.
  - destruct r as [e|t]; simpl; [|discriminate]. intros _.
    rewrite map_where_none; [exact Hm|]. now apply filter_nil_none.
  - destruct r as [e|t]; simpl; [discriminate|]. intros [= <-]. simpl.
    set (h := fun v : Z * string * nullable string * bool * Z =>
                let '(i, ti, d, c, cr) := v in
                if i =? taskId then (i, ti, d, completed, cr) else v).
    eapply Permutation_trans;
      [|eapply Permutation_trans; [exact (Permutation_map h Hm)|]].
    + match goal with
      | |- Permutation ?a ?b => replace a with b; [reflexivity|]
      end.
      rewrite !map_map. apply map_ext. intros x. unfold h, shown. simpl.
      now destruct (Task.id x =? taskId).
    + match goal with
      | |- Permutation ?a ?b => replace b with a; [reflexivity|]
      end.
      rewrite !map_map. apply map_ext. intros x. unfold h, shown, eq_id.
      simpl. now destruct (Task.id x =? taskId).
Qed.

Lemma handleToggleTask_keeps_mirror_witness :
  mirrors
    (handleToggleTask_settled 1
       (inr (Task.mk 1 "Original Task" (value "Original description")
                     true 1000 2000))
       one_task_page)
    (fst (toggleTask 2000 (handleToggleTask_input 1 true) one_task_world)).
Proof.
  apply (handleToggleTask_keeps_mirror 2000 1 true one_task_world
           one_task_page
           (inr (Task.mk 1 "Original Task" (value "Original description")
                         true 1000 2000))).
  - unfold mirrors. simpl. apply Permutation_refl.
  - reflexivity.
Defined.

(** After a toggle that the handler resolved, every task of the page
    with the id is in the completed section exactly when completion
    was asked for, and among the tasks to do exactly when it was not. *)
Theorem toggled_task_changes_section (now : Z) (taskId : Z)
    (completed : bool) (w : World) (st : App.State) (t : Task) :
  snd (toggleTask now (handleToggleTask_input taskId completed) w)
  = Resolved t ->
  forall task : Task,
    In task (App.tasks (handleToggleTask_settled taskId (inr t) st)) ->
    Task.id task = taskId ->
    (In task (completedTasks (handleToggleTask_settled taskId (inr t) st))
     <-> completed = true) /\
    (In task (incompleteTasks (handleToggleTask_settled taskId (inr t) st))
     <-> completed = false).
Proof.
  rewrite toggleTask_outcome. unfold handleToggleTask_input.
  cbn [ToggleTaskInput.id ToggleTaskInput.completed].
  destruct (filter (eq_id taskId) (rows (db w))) as [|r0 m];
    [discriminate|].
  intros [= <-] task Hin Hid.
  unfold completedTasks, incompleteTasks. rewrite !filter_In.
  assert (Hc : Task.completed task = completed).
  { simpl in Hin. apply in_map_iff in Hin. destruct Hin as (x & Hx & _).
    destruct (Task.id x =? taskId) eqn:Ex.
    - now subst task.
    - subst task. apply Z.eqb_neq in Ex. contradiction. }
  rewrite Hc.
  split; (split; [intros [_ H] | intros H; split; [exact Hin|]]);
    destruct completed; simpl in *; congruence.
Qed.

Lemma toggled_task_changes_section_witness :
  (In original_task
      (completedTasks
         (handleToggleTask_settled 1 (inr original_task)
            (App.mk [Task.mk 1 "Original Task" (value "Original description")
                             true 1000 1000] false "" false [])))
   <-> false = true) /\
  (In original_task
      (incompleteTasks
         (handleToggleTask_settled 1 (inr original_task)
            (App.mk [Task.mk 1 "Original Task" (value "Original description")
                             true 1000 1000] false "" false [])))
   <-> false = false).
Proof.
  apply (toggled_task_changes_section 1000 1 false one_task_world
           (App.mk [Task.mk 1 "Original Task" (value "Original description")
                            true 1000 1000] false "" false [])
           original_task).
  - reflexivity.
  - simpl. now left.
  - reflexivity.
Defined.

(** ** From a valid request to the row *)

Lemma createTaskInputSchema_title_nonempty (raw : jsval)
    (input : CreateTaskInput) :
  createTaskInputSchema raw = inr input -> CreateTaskInput.title input <> "".
Proof.
  unfold createTaskInputSchema. destruct raw; try discriminate. cbv zeta.
  destruct (z_min 1 (present "Title is required") z_string
              (get_prop "title" props)) as [?|t] eqn:Et; [discriminate|].
  destruct (z_optional (z_nullable z_string) (get_prop "description" props));
    [discriminate|].
  intros [= <-]. simpl. apply z_min_1_accepts in Et. now destruct Et.
Qed.

(** A task created from an input that passed the create schema has
    the title of the input, which is not empty; and the description of
    a created task is never the empty string: it is null or has at
    least one character. *)
Theorem valid_create_stores_no_empty_text (raw : jsval)
    (input : CreateTaskInput) (now : Z) (w : World) :
  createTaskInputSchema raw = inr input ->
  exists t : Task,
    snd (createTask now input w) = Resolved t /\
    In t (rows (db (fst (createTask now input w)))) /\
    Task.title t = CreateTaskInput.title input /\
    Task.title t <> "" /\
    Task.description t <> value "".
Proof.
  intros H. apply createTaskInputSchema_title_nonempty in H.
  rewrite createTask_eq. cbv zeta. eexists. split; [reflexivity|].
  cbn [fst db rows]. repeat split.
  - apply in_or_app. right. now left.
  - exact H.
  - simpl. destruct (CreateTaskInput.description input) as [|[|s]];
      simpl; try discriminate.
    unfold truthy_string. destruct (String.eqb_spec s ""); simpl;
      [discriminate|]. congruence.
Qed.

Lemma valid_create_stores_no_empty_text_witness :
  exists t : Task,
    snd (createTask 1500
           (CreateTaskInput.mk "Walk the dog" (present (value "")))
           one_task_world) = Resolved t /\
    In t (rows (db (fst (createTask 1500
                           (CreateTaskInput.mk "Walk the dog"
                              (present (value "")))
                           one_task_world)))) /\
    Task.title t = "Walk the dog" /\
    Task.title t <> "" /\
    Task.description t <> value "".
Proof.
  apply (valid_create_stores_no_empty_text
           (JObject [("title", JString "Walk the dog");
                     ("description", JString "")])
           (CreateTaskInput.mk "Walk the dog" (present (value "")))
           1500 one_task_world).
  reflexivity.
Defined.

(** ** Where the clock and the creation times matter *)

(** C5, as stated, fails when a handler reads an earlier time than a
    row was created at: a task is created at time 5000 and toggled at
    time 2000.  The toggle returns, and the table then holds, a task
    with [created_at] 5000 and [updated_at] 2000. *)
Lemma timestamps_unordered_when_clock_steps_back :
  let served :=
    run [ CreateTask 5000 (CreateTaskInput.mk "Buy milk" undefined);
          ToggleTask 2000 (ToggleTaskInput.mk 1 true) ] empty_world in
  rows (db (fst served)) = [Task.mk 1 "Buy milk" null true 5000 2000] /\
  snd served
  = [ TaskResponse (Resolved (Task.mk 1 "Buy milk" null false 5000 5000));
      TaskResponse (Resolved (Task.mk 1 "Buy milk" null true 5000 2000)) ] /\
  ~ Forall timestamps_ordered (rows (db (fst served))) /\
  ~ Forall (fun resp => Forall timestamps_ordered (observed resp))
           (snd served).
Proof.
  cbv zeta. repeat split.
  - intros H. inversion H as [|? ? Ht _]; subst.
    unfold timestamps_ordered in Ht. simpl in Ht. lia.
  - intros H. inversion H as [|? ? _ H']; subst.
    inversion H' as [|? ? Ht _]; subst.
    inversion Ht as [|? ? Ht' _]; subst.
    unfold timestamps_ordered in Ht'. simpl in Ht'. lia.
Qed.

